(** * ChatBot conversation session layer: embedding and properties

    Shallow embedding of the Fastify back end ([server/routes/chat.js], the
    [onRequest] hook of the server entry point, the SQLite schema) and of the
    client-side reply parser ([parseRAGResponse]).

    - [JS]     : JavaScript strings as sequences of UTF-16 code units, with
                 the [String.prototype] methods the code calls.
    - [JSON]   : [JSON.parse] and the property reads done on its result.
    - [Codec]  : the two decoders of the [METADATA_START:...:METADATA_END]
                 wire format (server, inline in [POST /chat]; client,
                 [parseRAGResponse]).
    - [Ledger] : the [messages] table and the SQL statements run on it;
                 the conversion SQLite applies to a conversation id is a
                 parameter.
    - [Chat]   : the [onRequest] hook and the [POST /chat], [GET /chat]
                 handlers, in a state-and-exception monad.
    - [Browser], [Signup], [Page] : the stored session, the sign-up form
                 and the send guard of the chat page.
    - [Sessions] : requests served one after the other. *)

From Stdlib Require Import List ZArith NArith Bool Lia String Ascii Sorted
  Permutation.
Import ListNotations.

Set Implicit Arguments.

(* ================================================================= *)
(** ** JavaScript strings *)

Module JS.

Local Open Scope Z_scope.

(** A JavaScript string is a finite sequence of UTF-16 code units. *)
Definition jsstring := list N.

Definition lit (s : string) : jsstring :=
  map N_of_ascii (list_ascii_of_string s).

Definition length (s : jsstring) : Z := Z.of_nat (List.length s).

Fixpoint eqb (a b : jsstring) : bool :=
  match a, b with
  | [], [] => true
  | x :: a', y :: b' => N.eqb x y && eqb a' b'
  | _, _ => false
  end.

(** [s.startsWith(p)] *)
Fixpoint startsWith (s p : jsstring) {struct p} : bool :=
  match p, s with
  | [], _ => true
  | _ :: _, [] => false
  | a :: p', b :: s' => N.eqb a b && startsWith s' p'
  end.

Fixpoint indexOf_from (s p : jsstring) (i : Z) : Z :=
  if startsWith s p then i
  else match s with
       | [] => -1
       | _ :: s' => indexOf_from s' p (i + 1)
       end.

(** [s.indexOf(p)]: position of the first occurrence of [p], or [-1]. *)
Definition indexOf (s p : jsstring) : Z := indexOf_from s p 0.

(** The code units of [s] at positions [from <= k < to]. *)
Definition range (s : jsstring) (from to : Z) : jsstring :=
  firstn (Z.to_nat (to - from)) (skipn (Z.to_nat from) s).

(** [s.slice(start, end)]: negative arguments count from the end, both are
    clamped to the string, an empty span yields the empty string. *)
Definition slice (s : jsstring) (start end_ : Z) : jsstring :=
  let len := length s in
  let from := if start <? 0 then Z.max (len + start) 0 else Z.min start len in
  let to := if end_ <? 0 then Z.max (len + end_) 0 else Z.min end_ len in
  range s from (Z.max from to).

(** [s.substring(start, end)]: both arguments are clamped to [0..length]
    and swapped when out of order. *)
Definition substring (s : jsstring) (start end_ : Z) : jsstring :=
  let len := length s in
  let finalStart := Z.min (Z.max start 0) len in
  let finalEnd := Z.min (Z.max end_ 0) len in
  range s (Z.min finalStart finalEnd) (Z.max finalStart finalEnd).

(** [s.substring(start)] *)
Definition substring_from (s : jsstring) (start : Z) : jsstring :=
  substring s start (length s).

(** [s.slice(start)] *)
Definition slice_from (s : jsstring) (start : Z) : jsstring :=
  slice s start (length s).

Definition concat (a b : jsstring) : jsstring := a ++ b.

(** WhiteSpace and LineTerminator code units, as [trim] strips them. *)
Definition is_space (c : N) : bool :=
  ((9 <=? c) && (c <=? 13) || (c =? 32) || (c =? 160) || (c =? 5760)
   || (8192 <=? c) && (c <=? 8202) || (c =? 8232) || (c =? 8233)
   || (c =? 8239) || (c =? 8287) || (c =? 12288) || (c =? 65279))%N.

Fixpoint drop_while (f : N -> bool) (s : jsstring) : jsstring :=
  match s with
  | [] => []
  | c :: s' => if f c then drop_while f s' else s
  end.

Definition drop_while_end (f : N -> bool) (s : jsstring) : jsstring :=
  rev (drop_while f (rev s)).

(** [s.trim()] *)
Definition trim (s : jsstring) : jsstring :=
  drop_while_end is_space (drop_while is_space s).

(** [s.replace(/p/g, r)] for a pattern [p] without metacharacters: every
    occurrence, scanning left to right, matches never overlapping.  [skip]
    counts the code units of the current match still to be passed over. *)
Fixpoint replace_all_aux (p r : jsstring) (skip : nat) (s : jsstring)
  : jsstring :=
  match s with
  | [] => []
  | c :: s' =>
      match skip with
      | S k => replace_all_aux p r k s'
      | O => if startsWith s p
             then r ++ replace_all_aux p r (Nat.pred (List.length p)) s'
             else c :: replace_all_aux p r 0 s'
      end
  end.

Definition replace_all (s p r : jsstring) : jsstring :=
  replace_all_aux p r 0 s.

(** [s.replace(p, r)] with a string pattern: the first occurrence only. *)
Definition replace_first (s p r : jsstring) : jsstring :=
  let i := indexOf s p in
  if i =? -1 then s
  else substring s 0 i ++ r ++ substring_from s (i + length p).

(** [s.replace(/^[\n\r]+/, "")] and [s.replace(/[\n\r]+$/, "")] *)
Definition is_newline (c : N) : bool := ((c =? 10) || (c =? 13))%N.
Definition strip_leading_newlines (s : jsstring) : jsstring :=
  drop_while is_newline s.
Definition strip_trailing_newlines (s : jsstring) : jsstring :=
  drop_while_end is_newline s.

End JS.

(* ================================================================= *)
(** ** JSON values and [JSON.parse] *)

Module JSON.

Import JS.

(** A JSON number literal, kept as the exact decimal it denotes:
    [(-1)^negative * mantissa * 10^exponent].  JavaScript rounds it to the
    nearest double. *)
Record number := Number { negative : bool; mantissa : N; exponent : Z }.

#[warnings="-register-all"]
Inductive json :=
| JNull
| JBool (b : bool)
| JNum (n : number)
| JStr (s : jsstring)
| JArr (elements : list json)
| JObj (members : list (jsstring * json)).

Definition ch (a : ascii) : N := N_of_ascii a.
Definition quote : N := 34%N.
Definition backslash : N := 92%N.

Definition is_ws (c : N) : bool :=
  ((c =? 32) || (c =? 9) || (c =? 10) || (c =? 13))%N.

Fixpoint skip_ws (s : jsstring) : jsstring :=
  match s with
  | [] => []
  | c :: s' => if is_ws c then skip_ws s' else s
  end.

Definition is_digit (c : N) : bool := ((48 <=? c) && (c <=? 57))%N.

Definition hex_val (c : N) : option N :=
  if is_digit c then Some (c - 48)%N
  else if ((97 <=? c) && (c <=? 102))%N then Some (c - 87)%N
  else if ((65 <=? c) && (c <=? 70))%N then Some (c - 55)%N
  else None.

(** A maximal run of decimal digits: accumulated value, count, rest. *)
Fixpoint digits (s : jsstring) (acc : N) (n : nat) : N * nat * jsstring :=
  match s with
  | [] => (acc, n, [])
  | c :: s' => if is_digit c then digits s' (acc * 10 + (c - 48))%N (S n)
               else (acc, n, s)
  end.

(** [int]: a single [0], or a non-zero digit followed by digits. *)
Definition parse_int (s : jsstring) : option (N * jsstring) :=
  match s with
  | [] => None
  | c :: s' =>
      if (c =? 48)%N then Some (0%N, s')
      else if is_digit c then let '(m, _, r) := digits s 0%N 0%nat in Some (m, r)
      else None
  end.

(** [frac]: optional, a dot followed by at least one digit; the digits
    extend the mantissa. *)
Definition parse_frac (m : N) (s : jsstring) : option (N * nat * jsstring) :=
  match s with
  | c :: s' =>
      if (c =? ch ".")%N
      then let '(m', n, r) := digits s' m 0%nat in
           match n with O => None | _ => Some (m', n, r) end
      else Some (m, O, s)
  | [] => Some (m, O, [])
  end.

(** [exp]: optional, [e] or [E], an optional sign, at least one digit. *)
Definition parse_exp (s : jsstring) : option (Z * jsstring) :=
  match s with
  | c :: s' =>
      if ((c =? ch "e") || (c =? ch "E"))%N then
        let '(neg, s'') :=
          match s' with
          | c' :: t => if (c' =? ch "-")%N then (true, t)
                       else if (c' =? ch "+")%N then (false, t)
                       else (false, s')
          | [] => (false, s')
          end in
        let '(e, n, r) := digits s'' 0%N 0%nat in
        match n with
        | O => None
        | _ => Some (if neg then (- Z.of_N e)%Z else Z.of_N e, r)
        end
      else Some (0%Z, s)
  | [] => Some (0%Z, [])
  end.

Definition parse_number (s : jsstring) : option (number * jsstring) :=
  let '(neg, s1) :=
    match s with
    | c :: t => if (c =? ch "-")%N then (true, t) else (false, s)
    | [] => (false, s)
    end in
  match parse_int s1 with
  | None => None
  | Some (m, s2) =>
      match parse_frac m s2 with
      | None => None
      | Some (m', nfrac, s3) =>
          match parse_exp s3 with
          | None => None
          | Some (e, s4) => Some (Number neg m' (e - Z.of_nat nfrac), s4)
          end
      end
  end.

(** The characters of a string literal after its opening quote, up to the
    closing quote: escapes are decoded, raw control characters refused.
    [acc] holds the decoded code units in reverse. *)
Fixpoint parse_string (s : jsstring) (acc : jsstring)
  : option (jsstring * jsstring) :=
  match s with
  | [] => None
  | c :: s' =>
      if (c =? quote)%N then Some (rev acc, s')
      else if (c =? backslash)%N then
        match s' with
        | [] => None
        | e :: s'' =>
            if (e =? quote)%N then parse_string s'' (quote :: acc)
            else if (e =? backslash)%N then parse_string s'' (backslash :: acc)
            else if (e =? ch "/")%N then parse_string s'' (ch "/" :: acc)
            else if (e =? ch "b")%N then parse_string s'' (8%N :: acc)
            else if (e =? ch "f")%N then parse_string s'' (12%N :: acc)
            else if (e =? ch "n")%N then parse_string s'' (10%N :: acc)
            else if (e =? ch "r")%N then parse_string s'' (13%N :: acc)
            else if (e =? ch "t")%N then parse_string s'' (9%N :: acc)
            else if (e =? ch "u")%N then
              match s'' with
              | h1 :: h2 :: h3 :: h4 :: t =>
                  match hex_val h1, hex_val h2, hex_val h3, hex_val h4 with
                  | Some a, Some b, Some c', Some d =>
                      parse_string t
                        (((a * 16 + b) * 16 + c') * 16 + d :: acc)%N
                  | _, _, _, _ => None
                  end
              | _ => None
              end
            else None
        end
      else if (c <? 32)%N then None
      else parse_string s' (c :: acc)
  end.

(** Recursive descent over values, array elements and object members.
    [fuel] bounds the depth of the calls; [parse] below supplies enough. *)
Fixpoint parse_value (fuel : nat) (s : jsstring) {struct fuel}
  : option (json * jsstring) :=
  match fuel with
  | O => None
  | S f =>
      match skip_ws s with
      | [] => None
      | c :: r =>
          if (c =? ch "{")%N then
            match skip_ws r with
            | [] => None
            | c' :: r' =>
                if (c' =? ch "}")%N then Some (JObj [], r')
                else match parse_members f (c' :: r') [] with
                     | Some (m, t) => Some (JObj m, t)
                     | None => None
                     end
            end
          else if (c =? ch "[")%N then
            match skip_ws r with
            | [] => None
            | c' :: r' =>
                if (c' =? ch "]")%N then Some (JArr [], r')
                else match parse_elements f (c' :: r') [] with
                     | Some (l, t) => Some (JArr l, t)
                     | None => None
                     end
            end
          else if (c =? quote)%N then
            match parse_string r [] with
            | Some (str, t) => Some (JStr str, t)
            | None => None
            end
          else if ((c =? ch "-") || is_digit c)%N then
            match parse_number (c :: r) with
            | Some (n, t) => Some (JNum n, t)
            | None => None
            end
          else if startsWith (c :: r) (lit "true")
               then Some (JBool true, skipn 4 (c :: r))
          else if startsWith (c :: r) (lit "false")
               then Some (JBool false, skipn 5 (c :: r))
          else if startsWith (c :: r) (lit "null")
               then Some (JNull, skipn 4 (c :: r))
          else None
      end
  end
with parse_elements (fuel : nat) (s : jsstring) (acc : list json)
       {struct fuel} : option (list json * jsstring) :=
  match fuel with
  | O => None
  | S f =>
      match parse_value f s with
      | None => None
      | Some (v, r) =>
          match skip_ws r with
          | [] => None
          | c :: r' =>
              if (c =? ch ",")%N then parse_elements f r' (v :: acc)
              else if (c =? ch "]")%N then Some (rev (v :: acc), r')
              else None
          end
      end
  end
with parse_members (fuel : nat) (s : jsstring) (acc : list (jsstring * json))
       {struct fuel} : option (list (jsstring * json) * jsstring) :=
  match fuel with
  | O => None
  | S f =>
      match skip_ws s with
      | [] => None
      | c :: r =>
          if (c =? quote)%N then
            match parse_string r [] with
            | None => None
            | Some (k, r1) =>
                match skip_ws r1 with
                | [] => None
                | c1 :: r2 =>
                    if (c1 =? ch ":")%N then
                      match parse_value f r2 with
                      | None => None
                      | Some (v, r3) =>
                          match skip_ws r3 with
                          | [] => None
                          | c3 :: r4 =>
                              if (c3 =? ch ",")%N
                              then parse_members f r4 ((k, v) :: acc)
                              else if (c3 =? ch "}")%N
                              then Some (rev ((k, v) :: acc), r4)
                              else None
                          end
                      end
                    else None
                end
            end
          else None
      end
  end.

Definition fuel_for (s : jsstring) : nat := 2 * List.length s.

(** [JSON.parse(s)]: [None] stands for the [SyntaxError] it throws.  One
    value, surrounded by optional white space, nothing else. *)
Definition parse (s : jsstring) : option json :=
  match parse_value (fuel_for s) s with
  | Some (v, r) => match skip_ws r with [] => Some v | _ :: _ => None end
  | None => None
  end.

(** *** Reading the parsed value *)

(** Own property [k] of a parsed object: with a duplicated key the last
    member wins. *)
Fixpoint lookup (k : jsstring) (m : list (jsstring * json)) : option json :=
  match m with
  | [] => None
  | (k', v) :: m' =>
      match lookup k m' with
      | Some v' => Some v'
      | None => if JS.eqb k k' then Some v else None
      end
  end.

(** A number literal denotes zero, or rounds to zero as a double
    (magnitude at most [2^-1075], half the least subnormal). *)
Definition rounds_to_zero (n : number) : bool :=
  ((mantissa n =? 0)%N
   || (exponent n <? 0)%Z
      && (Z.of_N (mantissa n) * 2 ^ 1075 <=? 10 ^ (- exponent n))%Z).

(** ToBoolean *)
Definition truthy (v : json) : bool :=
  match v with
  | JNull => false
  | JBool b => b
  | JNum n => negb (rounds_to_zero n)
  | JStr s => match s with [] => false | _ => true end
  | JArr _ | JObj _ => true
  end.

(** [v.k] for a name [k] that no built-in prototype defines ([sources],
    [context]): [None] is the [TypeError] of reading a property of [null],
    [Some None] is [undefined]. *)
Definition get (v : json) (k : jsstring) : option (option json) :=
  match v with
  | JNull => None
  | JObj m => Some (lookup k m)
  | _ => Some None
  end.

(** ToBoolean of a value that may be [undefined] ([None]). *)
Definition is_truthy (x : option json) : bool :=
  match x with
  | Some v => truthy v
  | None => false
  end.

(** [x || d] *)
Definition or_else (x : option json) (d : json) : json :=
  match x with
  | Some v => if truthy v then v else d
  | None => d
  end.

End JSON.

(* ================================================================= *)
(** ** The embedded-metadata reply format *)

Module Codec.

Import JS JSON.

Local Open Scope Z_scope.

Definition METADATA_START : jsstring := lit "METADATA_START:".
Definition METADATA_END : jsstring := lit ":METADATA_END".

(** The chain of four global replacements applied to the payload before
    [JSON.parse] (same code in both decoders). *)
Definition jsonStr_fixed (jsonStr : jsstring) : jsstring :=
  replace_all
    (replace_all
       (replace_all
          (replace_all jsonStr (lit "'") [quote])
          (lit "True") (lit "true"))
       (lit "False") (lit "false"))
    (lit "None") (lit "null").

(** *** Server: the decoding block of [POST /chat] *)

(** The inner [try] body: [None] when it throws ([JSON.parse] rejects the
    text, or the parsed value is [null]); otherwise the new value of
    [sources]. *)
Definition read_sources (jsonStr : jsstring) : option json :=
  match parse (jsonStr_fixed jsonStr) with
  | None => None
  | Some metadata =>
      match get metadata (lit "sources") with
      | None => None
      | Some x => Some (or_else x (JArr []))
      end
  end.

(** From [aiResText] to the pair [(parsedAnswer, sources)].  Every call in
    the outer [try] is total on strings, so its [catch] is never entered. *)
Definition decode (aiResText : jsstring) : jsstring * json :=
  let metaStart := indexOf aiResText METADATA_START in
  let metaEnd := indexOf aiResText METADATA_END in
  if negb (metaStart =? -1) && negb (metaEnd =? -1) then
    let jsonStr := slice aiResText (metaStart + 15) metaEnd in
    let sources :=
      match read_sources jsonStr with
      | Some v => v
      | None => JArr []
      end in
    let parsedAnswer :=
      trim (concat (substring aiResText 0 metaStart)
                   (substring_from aiResText (metaEnd + 13))) in
    (parsedAnswer, sources)
  else (aiResText, JArr []).

(** *** Client: [parseRAGResponse] *)

Record ParsedResponse := {
  answer : jsstring;
  sources : json;
  context : json;
  rawResponse : jsstring
}.

(** The inner [try] body, as the values of [result.sources],
    [result.context] and [answerText] when it is left.  The block is cut
    out of [answerText] by its last statement only, so not when an earlier
    one throws. *)
Definition read_metadata (rawResponse : jsstring) (metadataStart metadataEnd : Z)
  : json * json * jsstring :=
  let metadataContent := slice rawResponse (metadataStart + 15) metadataEnd in
  match parse (jsonStr_fixed metadataContent) with
  | None => (JArr [], JStr [], rawResponse)
  | Some metadata =>
      match get metadata (lit "sources") with
      | None => (JArr [], JStr [], rawResponse)
      | Some x =>
          match get metadata (lit "context") with
          | None => (or_else x (JArr []), JStr [], rawResponse)
          | Some y =>
              (or_else x (JArr []), or_else y (JStr []),
               concat (slice rawResponse 0 metadataStart)
                      (slice_from rawResponse (metadataEnd + 13)))
          end
      end
  end.

Definition parseRAGResponse (rawResponse : jsstring) : ParsedResponse :=
  let metadataStart := indexOf rawResponse METADATA_START in
  let metadataEnd := indexOf rawResponse METADATA_END in
  let '(sources, context, answerText) :=
    if negb (metadataStart =? -1) && negb (metadataEnd =? -1)
    then read_metadata rawResponse metadataStart metadataEnd
    else (JArr [], JStr [], rawResponse) in
  {| answer := strip_trailing_newlines (strip_leading_newlines (trim answerText));
     sources := sources;
     context := context;
     rawResponse := rawResponse |}.

Definition formatRAGResponse (parsed : ParsedResponse) : jsstring * json :=
  (answer parsed, sources parsed).

End Codec.


(* ================================================================= *)
(** ** The [messages] table *)

Module Ledger.

Import JS JSON.

Local Open Scope Z_scope.

(** The two values the handlers write into the [speaker] column. *)
Inductive Speaker := User | AI.

(** What SQLite keeps of a value bound to [conversation_id].  The schema
    declares that column [INTEGER], so a bound text that reads as a number
    is kept, and compared, as that number, and only the other texts as
    text: ["7"], ["07"] and ["7.0"] name one conversation,
    ["default-session"] another.  [Real] holds a double that is not a
    64-bit integer, by its bit pattern.  The handlers bind truthy values
    only (["default-session"] replaces a falsy id), which reach SQLite as
    numbers or as text, so [NULL] is not among the kept values. *)
Inductive column_value :=
| Integer (i : Z)
| Real (bits : Z)
| Text (s : jsstring).

(** [=] on two kept values. *)
Definition same_value (a b : column_value) : bool :=
  match a, b with
  | Integer i, Integer j => i =? j
  | Real x, Real y => x =? y
  | Text s, Text t => JS.eqb s t
  | _, _ => false
  end.

(** A row of [messages]; [created_at] is filled in by SQLite's clock and
    is left out.  [conversation_id] is the value the handler bound to the
    [INSERT] (["default-session"] or the client's [conversationId], which
    may be any JSON value); comparisons see it through the column's
    conversion, see [in_scope]. *)
Record message := {
  message_id : Z;
  conversation_id : json;
  user_id : Z;
  content : jsstring;
  speaker : Speaker;
  message_index : Z
}.

(** The table: its rows in insertion order, and the AUTOINCREMENT counter
    behind [message_id]. *)
Record table := { rows : list message; last_id : Z }.

Definition empty : table := {| rows := []; last_id := 0 |}.

Definition of_user (userId : Z) (m : message) : bool :=
  user_id m =? userId.

(** [SELECT COUNT( * ) AS count FROM messages WHERE user_id = ?] *)
Definition count_by_user (t : table) (userId : Z) : Z :=
  Z.of_nat (List.length (filter (of_user userId) (rows t))).

(** [INSERT INTO messages (conversation_id, user_id, content, speaker,
    message_index) VALUES (?, ?, ?, ?, ?)] *)
Definition insert (t : table) (convId : json) (userId : Z)
    (text : jsstring) (who : Speaker) (index : Z) : table :=
  let id := last_id t + 1 in
  {| rows := rows t ++ [ {| message_id := id; conversation_id := convId;
                            user_id := userId; content := text;
                            speaker := who; message_index := index |} ];
     last_id := id |}.

(** [ORDER BY message_index]: an insertion sort that keeps rows of equal
    index in insertion order (SQL leaves the order of ties open). *)
Fixpoint place (le : Z -> Z -> bool) (m : message) (l : list message)
  : list message :=
  match l with
  | [] => [m]
  | m' :: l' => if le (message_index m) (message_index m')
                then m :: l
                else m' :: place le m l'
  end.

Fixpoint order_by (le : Z -> Z -> bool) (l : list message) : list message :=
  match l with
  | [] => []
  | m :: l' => place le m (order_by le l')
  end.

Section Scopes.

(** The conversion that the driver and SQLite apply to a JavaScript value
    bound to [conversation_id], on [INSERT] and in a [WHERE]: the value
    kept under the column's [INTEGER] affinity.  It belongs to the
    database library, not to this repository, and is a parameter. *)
Variable affinity : json -> column_value.

(** [WHERE user_id = ? AND conversation_id = ?] *)
Definition in_scope (userId : Z) (convId : json) (m : message) : bool :=
  (user_id m =? userId)
  && same_value (affinity (conversation_id m)) (affinity convId).

(** The number of rows of one (user, conversation) scope. *)
Definition count_in_scope (t : table) (userId : Z) (convId : json) : Z :=
  Z.of_nat (List.length (filter (in_scope userId convId) (rows t))).

(** [WHERE user_id = ? AND conversation_id = ? ORDER BY message_index ASC] *)
Definition select_asc (t : table) (userId : Z) (convId : json)
  : list message :=
  order_by Z.leb (filter (in_scope userId convId) (rows t)).

(** [WHERE user_id = ? AND conversation_id = ?
     ORDER BY message_index DESC LIMIT 8] *)
Definition select_last8 (t : table) (userId : Z) (convId : json)
  : list message :=
  firstn 8 (order_by Z.geb (filter (in_scope userId convId) (rows t))).

End Scopes.

End Ledger.

(* ================================================================= *)
(** ** The request hook and the chat handlers *)

Module Chat.

Import JS JSON Codec Ledger.

Local Open Scope Z_scope.

(** *** Requests, replies, environment *)

(** The claims of a verified token, as the handlers read them:
    [user_id] may be missing. *)
Record jwt_payload := { claim_user_id : option Z; claim_email : jsstring }.

(** [req.user]: never assigned, set to [null] by the hook's [catch], or
    the verified payload. *)
Inductive req_user := Undefined | Null | Payload (p : jwt_payload).

(** [req.body] of [POST /chat]: whatever the content-type parser made of
    the payload, any JSON value, or [undefined] ([None]) for a request
    sent without a body. *)
Definition chat_body := option json.

(** [const { question, conversationId } = req.body]: the values bound to
    the two names, each [undefined] ([None]) when the body has no such
    member; [None] for the [TypeError] of destructuring [undefined] or
    [null]. *)
Definition destructure (b : chat_body)
  : option (option json * option json) :=
  match b with
  | None => None
  | Some v =>
      match get v (lit "question"), get v (lit "conversationId") with
      | Some question, Some conversationId => Some (question, conversationId)
      | _, _ => None
      end
  end.

(** The two names, read off a body ([undefined] when the destructuring
    throws). *)
Definition question (b : chat_body) : option json :=
  match destructure b with
  | Some (question, _) => question
  | None => None
  end.

Definition conversationId (b : chat_body) : option json :=
  match destructure b with
  | Some (_, conversationId) => conversationId
  | None => None
  end.

Record request := {
  authorization : option jsstring;   (* req.headers.authorization *)
  cookie_token : option jsstring;    (* req.cookies.token *)
  body : chat_body
}.

Inductive Role := user | assistant.

(** What [got.post] sends to the inference service. *)
Record ai_request := {
  ai_url : jsstring;
  x_internal_secret : option jsstring;
  ai_user_id : Z;
  ai_question : jsstring;
  ai_conversationId : json;
  messageContext : list (Role * jsstring)
}.

(** The process environment and the library behaviour the code only
    consumes: [jwt.verify(token, JWT_SECRET)] and [got.post(...).text()],
    each [None] when it throws, and the conversion SQLite applies to the
    values bound to [conversation_id] (see [Ledger.in_scope]). *)
Record environment := {
  jwt_verify : jsstring -> option jwt_payload;
  AI_SERVICE_URL : option jsstring;
  INTERNAL_API_KEY : option jsstring;
  got_post_text : ai_request -> option jsstring;
  sqlite_affinity : json -> column_value
}.

Record formatted_message := {
  messageId : Z;
  role : Role;
  text : jsstring;
  index : Z
}.

(** The bodies the handlers send:
    - [Message]: [{ message }];
    - [Failure]: [{ message, error: err.message }], the error text left out;
    - [Answer]:  [{ aiMessage, sources, answer, conversationId }];
    - [History]: the one-element array [[{ conversationId, userId, messages }]]. *)
Inductive reply_body :=
| Message (message : jsstring)
| Failure (message : jsstring)
| Answer (aiMessage : jsstring) (sources : json) (answer : jsstring)
         (convId : json)
| History (convId : json) (userId : Z) (messages : list formatted_message).

Record reply := Reply { code : Z; payload : reply_body }.

(** *** State and exceptions *)

(** The database behind [fastify.db].  [faults] schedules storage
    failures: each call consumes one entry and throws when it is [true];
    an exhausted schedule means no further failure. *)
Record world := { db : table; faults : list bool }.

(** How a computation ends: with a value, or with an exception.  An
    exception that leaves a handler rejects its promise, which Fastify's
    default error handler answers with status 500. *)
Inductive outcome (A : Type) := Ok (a : A) | Thrown.
Arguments Thrown {A}.

Definition M (A : Type) : Type := world -> outcome A * world.

Definition ret {A} (a : A) : M A := fun w => (Ok a, w).

Definition throw {A} : M A := fun w => (Thrown, w).

Definition bind {A B} (m : M A) (k : A -> M B) : M B :=
  fun w => match m w with
           | (Ok a, w') => k a w'
           | (Thrown, w') => (Thrown, w')
           end.

(** [try { m } catch { h }] *)
Definition try_catch {A} (m h : M A) : M A :=
  fun w => match m w with
           | (Ok a, w') => (Ok a, w')
           | (Thrown, w') => h w'
           end.

Notation "x <- m ;; k" := (bind m (fun x => k))
  (at level 61, m at next level, right associativity).

Definition storage_call {A} (f : table -> A * table) : M A :=
  fun w =>
    match faults w with
    | true :: fs => (Thrown, {| db := db w; faults := fs |})
    | _ => let '(a, t) := f (db w) in
           (Ok a, {| db := t; faults := tl (faults w) |})
    end.

Definition db_get_count (userId : Z) : M Z :=
  storage_call (fun t => (count_by_user t userId, t)).

Definition db_run_insert (convId : json) (userId : Z) (content : jsstring)
    (who : Speaker) (index : Z) : M unit :=
  storage_call (fun t => (tt, insert t convId userId content who index)).

Section Handlers.

Variable env : environment.

Definition db_all_last8 (userId : Z) (convId : json) : M (list message) :=
  storage_call
    (fun t => (select_last8 (sqlite_affinity env) t userId convId, t)).

Definition db_all_asc (userId : Z) (convId : json) : M (list message) :=
  storage_call
    (fun t => (select_asc (sqlite_affinity env) t userId convId, t)).

Definition got_post (rq : ai_request) : M jsstring :=
  fun w => match got_post_text env rq with
           | Some t => (Ok t, w)
           | None => (Thrown, w)
           end.

(** *** The [onRequest] hook *)

(** [authHeader?.startsWith("Bearer ")
      ? authHeader.replace("Bearer ", "") : cookieToken] *)
Definition token (req : request) : option jsstring :=
  let authHeader := authorization req in
  let cookieToken := cookie_token req in
  match authHeader with
  | Some h => if startsWith h (lit "Bearer ")
              then Some (replace_first h (lit "Bearer ") [])
              else cookieToken
  | None => cookieToken
  end.

Definition onRequest (req : request) : req_user :=
  match token req with
  | Some (c :: t) =>
      match jwt_verify env (c :: t) with
      | Some p => Payload p
      | None => Null
      end
  | _ => Undefined
  end.

(** [!req.user || !req.user.user_id] is false exactly when this is
    [Some userId]; [userId] is then [Number(req.user.user_id)]. *)
Definition authenticated (u : req_user) : option Z :=
  match u with
  | Payload p =>
      match claim_user_id p with
      | Some id => if id =? 0 then None else Some id
      | None => None
      end
  | Undefined | Null => None
  end.

(** *** [POST /chat] *)

Definition default_session : json := JStr (lit "default-session").

(** [conversationId || "default-session"] *)
Definition conv_or_default (conversationId : option json) : json :=
  or_else conversationId default_session.

Definition role_of (s : Speaker) : Role :=
  match s with User => user | AI => assistant end.

(** The two statements both turns are written with: count the user's
    rows, insert with the count plus one. *)
Definition append_turn (convId : json) (userId : Z) (content : jsstring)
    (who : Speaker) : M Z :=
  count <- db_get_count userId ;;
  let msgIndex := count + 1 in
  _ <- db_run_insert convId userId content who msgIndex ;;
  ret msgIndex.

(** The destructuring of [req.body] and the test
    [!question || !question.trim()] stand outside every [try]: the first
    throws on a body that is [undefined] or [null], the second on a
    truthy [question] that is not a string (it has no [trim] to call). *)
Definition post_chat (u : req_user) (b : chat_body) : M reply :=
  match authenticated u with
  | None => ret (Reply 401 (Message (lit "Authentication required.")))
  | Some userId =>
      match destructure b with
      | None => throw
      | Some (question, conversationId) =>
          if negb (is_truthy question)
          then ret (Reply 400 (Message (lit "Question is required.")))
          else
            match question with
            | Some (JStr question) =>
                match trim question with
                | [] => ret (Reply 400 (Message (lit "Question is required.")))
                | _ :: _ =>
                    let convId := conv_or_default conversationId in
                    stored <-
                      try_catch
                        (_ <- append_turn convId userId question User ;; ret None)
                        (ret (Some (Reply 500 (Failure (lit "Failed to store message"))))) ;;
                    match stored with
                    | Some r => ret r
                    | None =>
                        match AI_SERVICE_URL env with
                        | Some (c' :: url) =>
                            let aiUrl := c' :: url in
                            try_catch
                              (lastMessages <- db_all_last8 userId convId ;;
                               let messageContext :=
                                 map (fun msg => (role_of (speaker msg), content msg))
                                     (rev lastMessages) in
                               aiResText <-
                                 got_post
                                   {| ai_url := aiUrl;
                                      x_internal_secret :=
                                        option_map trim (INTERNAL_API_KEY env);
                                      ai_user_id := userId;
                                      ai_question := question;
                                      ai_conversationId := convId;
                                      messageContext := messageContext |} ;;
                               let '(parsedAnswer, sources) := decode aiResText in
                               _ <- try_catch
                                      (_ <- append_turn convId userId parsedAnswer AI ;;
                                       ret tt)
                                      (ret tt) ;;
                               ret (Reply 200 (Answer parsedAnswer sources
                                                      parsedAnswer convId)))
                              (ret (Reply 502 (Failure (lit "AI service unavailable"))))
                        | _ => ret (Reply 500 (Message (lit "AI service not configured.")))
                        end
                    end
                end
            | _ => throw
            end
      end
  end.

(** *** [GET /chat] *)

Definition format_message (msg : message) : formatted_message :=
  {| messageId := message_id msg;
     role := role_of (speaker msg);
     text := content msg;
     index := message_index msg |}.

Definition get_chat (u : req_user) : M reply :=
  match authenticated u with
  | None => ret (Reply 401 (Message (lit "Authentication required.")))
  | Some userId =>
      let conversationId := default_session in
      try_catch
        (rows <- db_all_asc userId conversationId ;;
         ret (Reply 200 (History conversationId userId
                                 (map format_message rows))))
        (ret (Reply 500 (Failure (lit "Failed to fetch messages"))))
  end.

(** The body [POST /chat] sends to the inference service when the table
    is [t] at the time the context window is read. *)
Definition inference_request (userId : Z) (question : jsstring)
    (convId : json) (aiUrl : jsstring) (t : table) : ai_request :=
  {| ai_url := aiUrl;
     x_internal_secret := option_map trim (INTERNAL_API_KEY env);
     ai_user_id := userId;
     ai_question := question;
     ai_conversationId := convId;
     messageContext :=
       map (fun msg => (role_of (speaker msg), content msg))
           (rev (select_last8 (sqlite_affinity env) t userId convId)) |}.

(** *** A request through the hook and its handler *)

Definition serve_post (req : request) : M reply :=
  post_chat (onRequest req) (body req).

Definition serve_get (req : request) : M reply :=
  get_chat (onRequest req).

End Handlers.

(** *** Sequences of appends *)

Record append_op := {
  op_conv : json;
  op_user : Z;
  op_content : jsstring;
  op_speaker : Speaker
}.

(** Appends executed one at a time, with the indices they return. *)
Fixpoint run_appends (ops : list append_op) : M (list Z) :=
  match ops with
  | [] => ret []
  | o :: ops' =>
      i <- append_turn (op_conv o) (op_user o) (op_content o) (op_speaker o) ;;
      l <- run_appends ops' ;;
      ret (i :: l)
  end.

(** The indices returned to the appends that satisfy [sel]. *)
Definition assigned (sel : append_op -> bool) (ops : list append_op)
    (idxs : list Z) : list Z :=
  map snd (filter (fun oi => sel (fst oi)) (combine ops idxs)).

Definition by_user (userId : Z) (o : append_op) : bool :=
  op_user o =? userId.

(** The appends that fall into one (user, conversation) scope. *)
Definition by_scope (affinity : json -> column_value) (userId : Z) (convId : json)
    (o : append_op) : bool :=
  (op_user o =? userId)
  && same_value (affinity (op_conv o)) (affinity convId).

(** [start; start + 1; ...; start + n - 1] *)
Fixpoint zseq (start : Z) (n : nat) : list Z :=
  match n with
  | O => []
  | S n' => start :: zseq (start + 1) n'
  end.

(** No storage call among the next [n] throws. *)
Definition healthy (n : nat) (w : world) : Prop :=
  forallb negb (firstn n (faults w)) = true.

End Chat.

(* ================================================================= *)
(** ** Client: stored session, sign-up form, chat page *)

Module Browser.

Import JS JSON.

(** [window.localStorage]: keys to strings.  [setItem] and [removeItem]
    give the storage a call leaves when it returns; a [setItem] may also
    throw (storage full or disabled), which [Signup.handle] accounts
    for. *)
Definition storage := jsstring -> option jsstring.

Definition getItem (ls : storage) (key : jsstring) : option jsstring := ls key.

Definition setItem (ls : storage) (key value : jsstring) : storage :=
  fun k => if JS.eqb k key then Some value else ls k.

Definition removeItem (ls : storage) (key : jsstring) : storage :=
  fun k => if JS.eqb k key then None else ls k.

(** The global scope a [cookieUtils] method runs in: [None] where
    [typeof window] is ['undefined'] (rendering on the server). *)
Definition window := option storage.

(** *** [cookieUtils] *)

Definition setToken (token : jsstring) (win : window) : window :=
  option_map (fun ls => setItem ls (lit "token") token) win.

Definition getToken (win : window) : option jsstring :=
  match win with
  | Some ls => getItem ls (lit "token")
  | None => None
  end.

Definition clearToken (win : window) : window :=
  option_map (fun ls => removeItem ls (lit "token")) win.

(** [getUser]: [user ? JSON.parse(user) : null].  [None] is the
    [SyntaxError] of [JSON.parse], [JNull] the value [null]. *)
Definition getUser (win : window) : option json :=
  match win with
  | Some ls =>
      match getItem ls (lit "user") with
      | Some (c :: u) => parse (c :: u)
      | _ => Some JNull
      end
  | None => Some JNull
  end.

Definition clearUser (win : window) : window :=
  option_map (fun ls => removeItem ls (lit "user")) win.

Definition clearAll (win : window) : window :=
  option_map
    (fun ls => removeItem
                 (removeItem (removeItem ls (lit "token")) (lit "user"))
                 (lit "chat_history"))
    win.

End Browser.

Module Signup.

Import JS JSON.

(** The state of the form when [onSubmit] runs. *)
Record form := {
  fullName : jsstring;
  email : jsstring;
  password : jsstring;
  password2 : jsstring;
  persona : jsstring
}.

Definition is_empty (s : jsstring) : bool :=
  match s with [] => true | _ :: _ => false end.

(** The five checks of [onSubmit], in order: the message of the first one
    that fails, or [None] when the form may be sent. *)
Definition validate (f : form) : option jsstring :=
  if is_empty (trim (fullName f)) then Some (lit "Please enter your full name.")
  else if is_empty (email f) then Some (lit "Please enter your email.")
  else if is_empty (password f) || is_empty (password2 f)
       then Some (lit "Please enter your password twice.")
  else if negb (JS.eqb (password f) (password2 f))
       then Some (lit "Passwords do not match.")
  else if is_empty (trim (persona f)) then Some (lit "Please enter your role.")
  else None.

(** The object sent to [/auth/register]. *)
Record registration := {
  full_name : jsstring;
  reg_email : jsstring;
  reg_password : jsstring;
  user_role : jsstring
}.

Definition registration_of (f : form) : registration :=
  {| full_name := fullName f;
     reg_email := email f;
     reg_password := password f;
     user_role := persona f |}.

(** What the handler reads of a response: [res.ok] and [res.text()]. *)
Record response := { res_ok : bool; res_text : jsstring }.

(** How [onSubmit] ends:
    - [Invalid m]: a check failed, status [m], nothing was sent;
    - [Registered token user]: [cookieUtils.setToken(data.token)] and
      [cookieUtils.setUser(data.user)] were called and returned ([None]
      for [undefined]), the success status is shown and the redirect to
      [/chatbot] is scheduled;
    - [Refused m]: status [data.error || 'Registration failed. Please try
      again.'];
    - [NetworkError]: the outer [catch], status ['Network error. Please
      try again.']. *)
Inductive result :=
| Invalid (status : jsstring)
| Registered (token user : option json)
| Refused (status : json)
| NetworkError.

Definition registration_failed : json :=
  JStr (lit "Registration failed. Please try again.").

(** The two [cookieUtils] calls of the success branch each end in a
    [localStorage.setItem], which throws when the storage is full or
    disabled.  [writes] tells, for each [setItem] call in turn, whether it
    throws (an exhausted list means no further failure); the session is
    stored when neither of the two does. *)
Definition session_stored (writes : list bool) : bool :=
  match writes with
  | true :: _ => false
  | _ :: true :: _ => false
  | _ => true
  end.

(** The statements after [const text = await res.text()]. *)
Definition handle (res : response) (writes : list bool) : result :=
  let data :=
    match parse (res_text res) with
    | Some v => v
    | None => JObj []
    end in
  let refused :=
    match get data (lit "error") with
    | None => NetworkError
    | Some e => Refused (or_else e registration_failed)
    end in
  if res_ok res then
    match get data (lit "ok") with
    | None => NetworkError
    | Some ok =>
        if is_truthy ok then
          match get data (lit "token"), get data (lit "user") with
          | Some token, Some user =>
              if session_stored writes then Registered token user
              else NetworkError
          | _, _ => NetworkError
          end
        else refused
    end
  else refused.

(** [onSubmit], with [fetch] as the server's answer to a registration
    ([None] when [fetch] or [res.text()] rejects). *)
Definition onSubmit (fetch : registration -> option response)
    (writes : list bool) (f : form) : result :=
  match validate f with
  | Some m => Invalid m
  | None =>
      match fetch (registration_of f) with
      | None => NetworkError
      | Some res => handle res writes
      end
  end.

End Signup.

Module Page.

Import JS JSON Codec Chat.

(** The guard of [sendMessage]: [!input.trim() || isLoading || !API_URL]
    makes it return at once. *)
Definition may_send (input : jsstring) (isLoading : bool)
    (API_URL : option jsstring) : bool :=
  match trim input, API_URL with
  | _ :: _, Some (_ :: _) => negb isLoading
  | _, _ => false
  end.

(** The request [sendMessage] issues: the stored token as a bearer
    header, the browser's cookie, and the object
    [{ question, conversationId, user_id }] as the body; [JSON.stringify]
    leaves [user_id] out when the page's [userId] is [undefined]. *)
Definition chat_request (token input conversationId : jsstring)
    (userId : option json) (cookie : option jsstring) : request :=
  {| authorization := Some (lit "Bearer " ++ token);
     cookie_token := cookie;
     body := Some (JObj ([(lit "question", JStr input);
                          (lit "conversationId", JStr conversationId)]
                         ++ match userId with
                            | Some id => [(lit "user_id", id)]
                            | None => []
                            end)) |}.

(** [parseRAGResponse(data.answer).answer], the text put in the bubble. *)
Definition cleanedAnswer (answer : jsstring) : jsstring :=
  Codec.answer (parseRAGResponse answer).

End Page.

(* ================================================================= *)
(** ** Requests in sequence *)

Module Sessions.

Import JS JSON Codec Ledger Chat.

Local Open Scope Z_scope.

(** The row an append writes into table [t], and the table it leaves. *)
Definition turn_row (t : table) (convId : json) (userId : Z)
    (text : jsstring) (who : Speaker) : message :=
  {| message_id := last_id t + 1;
     conversation_id := convId;
     user_id := userId;
     content := text;
     speaker := who;
     message_index := count_by_user t userId + 1 |}.

Definition with_turn (t : table) (convId : json) (userId : Z)
    (text : jsstring) (who : Speaker) : table :=
  insert t convId userId text who (count_by_user t userId + 1).

(** [lastMessages.reverse()]: the rows behind [messageContext]. *)
Definition context_window (affinity : json -> column_value) (t : table)
    (userId : Z) (convId : json) : list message :=
  rev (select_last8 affinity t userId convId).

(** The two routes of [chatRoutes]. *)
Inductive http_request :=
| PostChat (req : request)
| GetChat (req : request).

Definition serve (env : environment) (r : http_request) : M reply :=
  match r with
  | PostChat req => serve_post env req
  | GetChat req => serve_get env req
  end.

(** The world after a list of requests, served one after the other. *)
Fixpoint serve_all (env : environment) (rs : list http_request) (w : world)
  : world :=
  match rs with
  | [] => w
  | r :: rs' => serve_all env rs' (snd (serve env r w))
  end.

(** Every user's rows carry, in insertion order, the indices 1, 2, ... *)
Definition dense_indices (t : table) : Prop :=
  forall u,
    map message_index (filter (of_user u) (rows t))
    = zseq 1 (List.length (filter (of_user u) (rows t))).

End Sessions.

(* ================================================================= *)
(** ** Concrete inputs *)

Module Examples.

Import JS JSON Codec Ledger Chat.

Local Open Scope Z_scope.

(** The reply of the worked example: single-quoted payload, text on both
    sides of the block. *)
Definition hello_world : jsstring :=
  lit "hello METADATA_START:{'sources': ['a.pdf (p.1)'], 'context': 'x'}:METADATA_END world".

Definition hello_world_payload : jsstring :=
  lit "{'sources': ['a.pdf (p.1)'], 'context': 'x'}".

(** [{"sources": ["a.pdf (p.1)"], "context": "x"}] *)
Definition hello_world_json : jsstring :=
  lit "{" ++ [quote] ++ lit "sources" ++ [quote] ++ lit ": ["
  ++ [quote] ++ lit "a.pdf (p.1)" ++ [quote] ++ lit "], "
  ++ [quote] ++ lit "context" ++ [quote] ++ lit ": "
  ++ [quote] ++ lit "x" ++ [quote] ++ lit "}".

(** [{'sources': ["John's notes.pdf"]}]: a string value with an
    apostrophe. *)
Definition johns_payload : jsstring :=
  lit "{'sources': [" ++ [quote] ++ lit "John's notes.pdf" ++ [quote] ++ lit "]}".

Definition johns_block : jsstring :=
  METADATA_START ++ johns_payload ++ METADATA_END.

Definition johns_reply : jsstring :=
  lit "See the notes. " ++ johns_block ++ lit " Bye.".

(** The same payload without the apostrophe. *)
Definition johns_payload_plain : jsstring :=
  lit "{'sources': [" ++ [quote] ++ lit "Johns notes.pdf" ++ [quote] ++ lit "]}".

(** A block whose payload is not JSON under any quoting. *)
Definition broken_block_reply : jsstring :=
  lit "Hi METADATA_START:{oops}:METADATA_END there".

(** The end sentinel before the start sentinel, and nowhere else. *)
Definition end_before_start : jsstring :=
  lit ":METADATA_END x METADATA_START:".

(** A stray end sentinel followed by a complete block. *)
Definition stray_end_then_block : jsstring :=
  lit "Done:METADATA_END. METADATA_START:{'sources': ['a.pdf']}:METADATA_END".

Definition padded : jsstring := lit " hi ".

(** A token the example verifier accepts, for user 7. *)
Definition good_token : jsstring := lit "signed.by.server".

Definition alice : jwt_payload :=
  {| claim_user_id := Some 7; claim_email := lit "alice@example.org" |}.

Definition verify_example (t : jsstring) : option jwt_payload :=
  if JS.eqb t good_token then Some alice else None.

(** A text of one to eighteen decimal digits, as the integer it spells. *)
Definition decimal (s : jsstring) : option Z :=
  if ((1 <=? List.length s)%nat && (List.length s <=? 18)%nat)
     && forallb is_digit s
  then Some (Z.of_N (fold_left (fun acc c => acc * 10 + (c - 48)) s 0))%N
  else None.

(** The conversion on the conversation ids bound in the runs below, which
    are strings of two kinds: a text of one to eighteen decimal digits is
    kept as the integer it spells (["7"] and ["07"] as 7), and a text
    with a letter that no numeric literal has (["a"], ["c2"],
    ["default-session"]) is kept as it is. *)
Definition affinity_example (v : json) : column_value :=
  match v with
  | JStr s => match decimal s with
              | Some i => Integer i
              | None => Text s
              end
  | _ => Text []
  end.

(** An environment whose inference service answers every call with
    [answer], or fails every call when [answer] is [None]. *)
Definition env_with (answer : option jsstring) : environment :=
  {| jwt_verify := verify_example;
     AI_SERVICE_URL := Some (lit "http://rag:8000/chat");
     INTERNAL_API_KEY := Some (lit "internal-key");
     got_post_text := fun _ => answer;
     sqlite_affinity := affinity_example |}.

Definition header_request (t : jsstring) (b : chat_body) : request :=
  {| authorization := Some (lit "Bearer " ++ t);
     cookie_token := None;
     body := b |}.

Definition cookie_request (t : jsstring) (b : chat_body) : request :=
  {| authorization := None; cookie_token := Some t; body := b |}.

Definition anonymous_request (b : chat_body) : request :=
  {| authorization := None; cookie_token := None; body := b |}.

(** The body [{ question: q }] or [{ question: q, conversationId: conv }]. *)
Definition ask (q : jsstring) (conv : option jsstring) : chat_body :=
  Some (JObj ((lit "question", JStr q)
              :: match conv with
                 | Some c => [(lit "conversationId", JStr c)]
                 | None => []
                 end)).

Definition fresh : world := {| db := empty; faults := [] |}.

(** One user, two conversations. *)
Definition two_conversations : list append_op :=
  [ {| op_conv := JStr (lit "a"); op_user := 1; op_content := lit "first";
       op_speaker := User |};
    {| op_conv := JStr (lit "b"); op_user := 1; op_content := lit "second";
       op_speaker := User |} ].

(** Two users and two conversations, interleaved. *)
Definition interleaved : list append_op :=
  [ {| op_conv := JStr (lit "a"); op_user := 1; op_content := lit "q1";
       op_speaker := User |};
    {| op_conv := JStr (lit "a"); op_user := 2; op_content := lit "q2";
       op_speaker := User |};
    {| op_conv := JStr (lit "a"); op_user := 1; op_content := lit "r1";
       op_speaker := AI |};
    {| op_conv := JStr (lit "b"); op_user := 2; op_content := lit "q3";
       op_speaker := User |};
    {| op_conv := JStr (lit "a"); op_user := 1; op_content := lit "q4";
       op_speaker := User |} ].

End Examples.

(* ================================================================= *)
(** ** More concrete inputs *)

Module MoreExamples.

Import JS JSON Codec Ledger Chat Browser Signup Page Sessions Examples.

Local Open Scope Z_scope.

(** A question under the default conversation, with a token that
    verifies. *)
Definition why_request : request :=
  header_request good_token (ask (lit "Why?") None).

(** The environment without [AI_SERVICE_URL]. *)
Definition env_unconfigured : environment :=
  {| jwt_verify := verify_example;
     AI_SERVICE_URL := None;
     INTERNAL_API_KEY := Some (lit "internal-key");
     got_post_text := fun _ => Some hello_world;
     sqlite_affinity := affinity_example |}.

(** Storage whose second call (the insert of the user's turn) throws. *)
Definition failing_insert : world :=
  {| db := empty; faults := [false; true] |}.

(** Storage whose fourth call (the count before the AI turn) throws. *)
Definition failing_ai_write : world :=
  {| db := empty; faults := [false; false; false; true] |}.

(** A table that already holds one question of user 7. *)
Definition one_turn : table :=
  with_turn empty default_session 7 (lit "Hi") User.

(** The world after one exchange of user 7 under conversation ["7"]. *)
Definition after_exchange_under_7 : world :=
  serve_all (env_with (Some hello_world))
    [PostChat (header_request good_token (ask (lit "Why?") (Some (lit "7"))))]
    fresh.

(** The world after two exchanges of user 7, the second one under
    conversation ["c2"]. *)
Definition after_two_exchanges : world :=
  serve_all (env_with (Some hello_world))
    [PostChat why_request;
     PostChat (header_request good_token (ask (lit "And?") (Some (lit "c2"))))]
    fresh.

End MoreExamples.

(* ================================================================= *)
(** * Properties *)

(** ** String operations *)

Section StringFacts.

Import JS.

Local Open Scope Z_scope.

Lemma startsWith_app (p s : jsstring) : startsWith (p ++ s) p = true.
Proof.
  induction p as [|a p IH]; simpl; [reflexivity|].
  now rewrite N.eqb_refl, IH.
Qed.

Lemma startsWith_split (s p : jsstring) :
  startsWith s p = true -> exists b, s = p ++ b.
Proof.
  revert s; induction p as [|a p IH]; intros s H.
  - now exists s.
  - destruct s as [|c s]; simpl in H; [discriminate|].
    apply andb_true_iff in H as [Hc Hs].
    apply N.eqb_eq in Hc; subst c.
    destruct (IH _ Hs) as [b ->]. now exists b.
Qed.

(** [indexOf] answers [-1] or a position inside the string. *)
Lemma indexOf_range (s p : jsstring) :
  indexOf s p = -1 \/ 0 <= indexOf s p <= length s.
Proof.
  unfold indexOf, length.
  assert (G : forall i, indexOf_from s p i = -1 \/
                        i <= indexOf_from s p i <= i + Z.of_nat (List.length s)).
  { induction s as [|c s IH]; intros i; simpl.
    - destruct (startsWith [] p); [right; lia | now left].
    - destruct (startsWith (c :: s) p); [right; lia|].
      destruct (IH (i + 1)) as [H | H]; [now left | right; lia]. }
  destruct (G 0) as [H | H]; [now left | right; lia].
Qed.

(** A position answered by [indexOf] is an occurrence of the pattern. *)
Lemma indexOf_occurrence (s p : jsstring) :
  indexOf s p <> -1 ->
  exists a b, s = a ++ p ++ b /\ length a = indexOf s p.
Proof.
  unfold indexOf, length.
  assert (G : forall i, indexOf_from s p i <> -1 ->
            exists a b, s = a ++ p ++ b /\
                        i + Z.of_nat (List.length a) = indexOf_from s p i).
  { induction s as [|c s IH]; intros i; simpl.
    - destruct (startsWith [] p) eqn:E; [|congruence].
      intros _. destruct (startsWith_split _ _ E) as [b Hb].
      exists [], b. simpl. split; [exact Hb | lia].
    - destruct (startsWith (c :: s) p) eqn:E.
      + intros _. destruct (startsWith_split _ _ E) as [b Hb].
        exists [], b. simpl. split; [exact Hb | lia].
      + intros H. destruct (IH _ H) as (a & b & Hs & Hl).
        exists (c :: a), b. simpl. split; [now rewrite Hs|].
        rewrite <- Hl. lia. }
  intros H. destruct (G 0 H) as (a & b & Hs & Hl).
  exists a, b. split; [exact Hs | lia].
Qed.

Lemma indexOf_prefix (p s : jsstring) : indexOf (p ++ s) p = 0.
Proof.
  unfold indexOf. destruct (p ++ s) eqn:E; simpl.
  - destruct p; [reflexivity | discriminate].
  - now rewrite <- E, startsWith_app.
Qed.

Lemma length_app (a b : jsstring) : length (a ++ b) = length a + length b.
Proof. unfold length. rewrite List.length_app. lia. Qed.

Lemma length_nonneg (a : jsstring) : 0 <= length a.
Proof. unfold length. lia. Qed.

Lemma range_prefix (a b : jsstring) : range (a ++ b) 0 (length a) = a.
Proof.
  unfold range, length. simpl. rewrite Z.sub_0_r, Nat2Z.id.
  rewrite firstn_app, firstn_all, Nat.sub_diag. simpl. apply app_nil_r.
Qed.

Lemma range_middle (a b c : jsstring) :
  range (a ++ b ++ c) (length a) (length a + length b) = b.
Proof.
  unfold range, length.
  replace (Z.of_nat (List.length a) + Z.of_nat (List.length b)
           - Z.of_nat (List.length a)) with (Z.of_nat (List.length b)) by lia.
  rewrite !Nat2Z.id, skipn_app, skipn_all, Nat.sub_diag. simpl.
  rewrite firstn_app, firstn_all, Nat.sub_diag. simpl. apply app_nil_r.
Qed.

Lemma range_suffix (a b : jsstring) :
  range (a ++ b) (length a) (length a + length b) = b.
Proof.
  rewrite <- (app_nil_r b) at 1. now rewrite range_middle.
Qed.

Lemma substring_prefix (a b : jsstring) : substring (a ++ b) 0 (length a) = a.
Proof.
  unfold substring. rewrite length_app.
  pose proof (length_nonneg a). pose proof (length_nonneg b).
  replace (Z.min (Z.max 0 0) (length a + length b)) with 0 by lia.
  replace (Z.min (Z.max (length a) 0) (length a + length b))
    with (length a) by lia.
  replace (Z.min 0 (length a)) with 0 by lia.
  replace (Z.max 0 (length a)) with (length a) by lia.
  apply range_prefix.
Qed.

Lemma substring_from_suffix (a b : jsstring) :
  substring_from (a ++ b) (length a) = b.
Proof.
  unfold substring_from, substring. rewrite length_app.
  pose proof (length_nonneg a). pose proof (length_nonneg b).
  replace (Z.min (Z.max (length a) 0) (length a + length b))
    with (length a) by lia.
  replace (Z.min (Z.max (length a + length b) 0) (length a + length b))
    with (length a + length b) by lia.
  replace (Z.min (length a) (length a + length b)) with (length a) by lia.
  replace (Z.max (length a) (length a + length b))
    with (length a + length b) by lia.
  apply range_suffix.
Qed.

Lemma slice_middle (a b c : jsstring) :
  slice (a ++ b ++ c) (length a) (length a + length b) = b.
Proof.
  unfold slice. rewrite !length_app.
  pose proof (length_nonneg a). pose proof (length_nonneg b).
  pose proof (length_nonneg c).
  destruct (Z.ltb_spec (length a) 0); [lia|].
  destruct (Z.ltb_spec (length a + length b) 0); [lia|].
  replace (Z.min (length a) (length a + (length b + length c)))
    with (length a) by lia.
  replace (Z.min (length a + length b) (length a + (length b + length c)))
    with (length a + length b) by lia.
  replace (Z.max (length a) (length a + length b))
    with (length a + length b) by lia.
  apply range_middle.
Qed.

Lemma slice_prefix (a b : jsstring) : slice (a ++ b) 0 (length a) = a.
Proof.
  change (a ++ b) with ([] ++ a ++ b).
  apply (slice_middle [] a b).
Qed.

Lemma slice_from_suffix (a b : jsstring) : slice_from (a ++ b) (length a) = b.
Proof.
  unfold slice_from. rewrite length_app.
  rewrite <- (app_nil_r b) at 1. apply slice_middle.
Qed.

(** A span whose end is not after its start is empty. *)
Lemma slice_reversed (s : jsstring) (i j : Z) :
  0 <= j <= i -> slice s i j = [].
Proof.
  intros H. unfold slice, range.
  destruct (Z.ltb_spec i 0); [lia|].
  destruct (Z.ltb_spec j 0); [lia|].
  replace (Z.max (Z.min i (length s)) (Z.min j (length s))
           - Z.min i (length s)) with 0 by lia.
  reflexivity.
Qed.

Lemma drop_while_all (f : N -> bool) (s : jsstring) :
  Forall (fun c => f c = true) s -> drop_while f s = [].
Proof.
  induction 1 as [|c s Hc _ IH]; simpl; [reflexivity|].
  now rewrite Hc.
Qed.

Lemma drop_while_head (f : N -> bool) (s : jsstring) :
  match drop_while f s with
  | [] => True
  | c :: _ => f c = false
  end.
Proof.
  induction s as [|c s IH]; simpl; [exact I|].
  destruct (f c) eqn:E; [exact IH | exact E].
Qed.

(** A string of white space only trims to the empty string. *)
Lemma trim_blank (s : jsstring) :
  Forall (fun c => is_space c = true) s -> trim s = [].
Proof.
  intros H. unfold trim. now rewrite (drop_while_all _ H).
Qed.

Lemma trim_nonempty_input (s : jsstring) : trim s <> [] -> s <> [].
Proof. intros H ->. now apply H. Qed.

End StringFacts.

(** ** [JSON.parse]: the fuel is never what makes it fail *)

Section JSONFacts.

Import JS JSON.


Lemma skip_ws_length (s : jsstring) : (List.length (skip_ws s) <= List.length s)%nat.
Proof.
  induction s as [|c s IH]; simpl; [lia|].
  destruct (is_ws c); simpl; lia.
Qed.

Lemma skip_ws_cons (s r : jsstring) (c : N) :
  skip_ws s = c :: r -> (List.length r < List.length s)%nat.
Proof.
  intros H. pose proof (skip_ws_length s) as L. rewrite H in L.
  simpl in L. lia.
Qed.

Lemma digits_length (s : jsstring) :
  forall acc n, (List.length (snd (digits s acc n)) <= List.length s)%nat.
Proof.
  induction s as [|c s IH]; intros acc n; simpl; [lia|].
  destruct (is_digit c); simpl; [|lia].
  specialize (IH (acc * 10 + (c - 48))%N (S n)). lia.
Qed.

Lemma parse_int_length (s r : jsstring) (m : N) :
  parse_int s = Some (m, r) -> (List.length r < List.length s)%nat.
Proof.
  unfold parse_int. destruct s as [|c s]; [discriminate|].
  destruct (c =? 48)%N.
  - intros H; inversion H; subst. simpl. lia.
  - destruct (is_digit c) eqn:Ed; [|discriminate].
    simpl digits. rewrite Ed.
    match goal with
    | |- context [digits s ?a ?b] =>
        pose proof (digits_length s a b) as L;
        destruct (digits s a b) as [[m' k] r']
    end.
    intros H; inversion H; subst. simpl in *. lia.
Qed.

Lemma parse_frac_length (s r : jsstring) (m m' : N) (n : nat) :
  parse_frac m s = Some (m', n, r) -> (List.length r <= List.length s)%nat.
Proof.
  unfold parse_frac. destruct s as [|c s].
  - intros H; inversion H; subst. simpl. lia.
  - destruct (c =? ch ".")%N.
    + pose proof (digits_length s m 0%nat) as L.
      destruct (digits s m 0) as [[m'' k] r'] eqn:E.
      destruct k; [discriminate|].
      intros H; inversion H; subst. simpl in *. lia.
    + intros H; inversion H; subst. lia.
Qed.

Lemma parse_exp_length (s r : jsstring) (e : Z) :
  parse_exp s = Some (e, r) -> (List.length r <= List.length s)%nat.
Proof.
  unfold parse_exp. destruct s as [|c s].
  - intros H; inversion H; subst. simpl. lia.
  - destruct ((c =? ch "e") || (c =? ch "E"))%N.
    + assert (G : forall (neg : bool) (t : jsstring),
                 (List.length t <= List.length s)%nat ->
                 (let '(e0, n, r0) := digits t 0%N 0%nat in
                  match n with
                  | O => None
                  | S _ => Some (if neg then (- Z.of_N e0)%Z else Z.of_N e0, r0)
                  end) = Some (e, r) -> (List.length r <= List.length (c :: s))%nat).
      { intros neg t Lt. pose proof (digits_length t 0%N 0%nat) as L.
        destruct (digits t 0 0) as [[e0 k] r0]. destruct k; [discriminate|].
        intros H; inversion H; subst. simpl in *. lia. }
      destruct s as [|c' t]; [apply (G false []); simpl; lia|].
      destruct (c' =? ch "-")%N; [apply (G true t); simpl; lia|].
      destruct (c' =? ch "+")%N; [apply (G false t); simpl; lia|].
      apply (G false (c' :: t)); simpl; lia.
    + intros H; inversion H; subst. lia.
Qed.

Lemma parse_number_length (s r : jsstring) (n : number) :
  parse_number s = Some (n, r) -> (List.length r < List.length s)%nat.
Proof.
  unfold parse_number.
  assert (G : forall s1, (List.length s1 <= List.length s)%nat ->
            match parse_int s1 with
            | Some (m, s2) =>
                match parse_frac m s2 with
                | Some (m', nfrac, s3) =>
                    match parse_exp s3 with
                    | Some (e, s4) =>
                        Some (Number false m' (e - Z.of_nat nfrac), s4)
                    | None => None
                    end
                | None => None
                end
            | None => None
            end = Some (Number false (mantissa n) (exponent n), r) ->
            (List.length r < List.length s)%nat).
  { intros s1 L1.
    destruct (parse_int s1) as [[m s2]|] eqn:E1; [|discriminate].
    destruct (parse_frac m s2) as [[[m' nf] s3]|] eqn:E2; [|discriminate].
    destruct (parse_exp s3) as [[e s4]|] eqn:E3; [|discriminate].
    intros H; inversion H; subst.
    apply parse_int_length in E1. apply parse_frac_length in E2.
    apply parse_exp_length in E3. lia. }
  assert (G' : forall neg s1, (List.length s1 <= List.length s)%nat ->
            match parse_int s1 with
            | Some (m, s2) =>
                match parse_frac m s2 with
                | Some (m', nfrac, s3) =>
                    match parse_exp s3 with
                    | Some (e, s4) =>
                        Some (Number neg m' (e - Z.of_nat nfrac), s4)
                    | None => None
                    end
                | None => None
                end
            | None => None
            end = Some (n, r) -> (List.length r < List.length s)%nat).
  { intros neg s1 L1 H. apply (G s1 L1).
    destruct (parse_int s1) as [[m s2]|]; [|discriminate].
    destruct (parse_frac m s2) as [[[m' nf] s3]|]; [|discriminate].
    destruct (parse_exp s3) as [[e s4]|]; [|discriminate].
    inversion H; subst. reflexivity. }
  destruct s as [|c t]; [apply (G' false []); simpl; lia|].
  destruct (c =? ch "-")%N; [apply (G' true t) | apply (G' false (c :: t))];
    simpl; lia.
Qed.

Lemma parse_string_length (n : nat) :
  forall s acc k r, (List.length s <= n)%nat ->
    parse_string s acc = Some (k, r) -> (List.length r < List.length s)%nat.
Proof.
  induction n as [|n IH]; intros s acc k r L.
  - destruct s; [discriminate | simpl in L; lia].
  - destruct s as [|c s]; [discriminate|]. simpl in L.
    cbn [parse_string].
    destruct (c =? quote)%N.
    { intros H; inversion H; subst. simpl. lia. }
    destruct (c =? backslash)%N.
    + destruct s as [|e s]; [discriminate|]. simpl in L.
      assert (Step : forall x, parse_string s (x :: acc) = Some (k, r) ->
                               (List.length r < List.length (c :: e :: s))%nat).
      { intros x H. apply IH in H; simpl in *; lia. }
      repeat match goal with
             | |- (if ?b then _ else _) = _ -> _ =>
                 destruct b; [try apply Step|]
             end; try discriminate.
      destruct s as [|h1 [|h2 [|h3 [|h4 t]]]]; try discriminate.
      destruct (hex_val h1), (hex_val h2), (hex_val h3), (hex_val h4);
        try discriminate.
      intros H. apply IH in H; simpl in *; lia.
    + destruct (c <? 32)%N; [discriminate|].
      intros H. apply IH in H; simpl in *; lia.
Qed.

Lemma parse_string_rest (s acc k r : jsstring) :
  parse_string s acc = Some (k, r) -> (List.length r < List.length s)%nat.
Proof. apply (@parse_string_length (List.length s)). lia. Qed.

(** Break up the [match]es of a hypothesis, dropping impossible cases. *)
Ltac split_matches H :=
  repeat match type of H with
         | context [match ?e with _ => _ end] =>
             destruct e eqn:?; try discriminate H
         end.

(** Collect what each parsing step says about the length of the rest. *)
Ltac rest_lengths :=
  repeat match goal with
         | E : skip_ws _ = _ :: _ |- _ => apply skip_ws_cons in E
         | E : parse_string _ _ = Some _ |- _ => apply parse_string_rest in E
         | E : parse_number _ = Some _ |- _ => apply parse_number_length in E
         end.

(** Every successful parsing function consumes at least one code unit. *)
Lemma parse_consumes (f : nat) :
  (forall s v r, parse_value f s = Some (v, r) ->
                 (List.length r < List.length s)%nat) /\
  (forall s acc l r, parse_elements f s acc = Some (l, r) ->
                     (List.length r < List.length s)%nat) /\
  (forall s acc m r, parse_members f s acc = Some (m, r) ->
                     (List.length r < List.length s)%nat).
Proof.
  induction f as [|f (IHv & IHe & IHm)];
    [repeat split; intros; discriminate|].
  repeat split; intros until r; intros H; simpl in H; split_matches H;
    try (inversion H; subst); rest_lengths;
    repeat match goal with
           | E : parse_value f _ = Some _ |- _ => apply IHv in E
           | E : parse_elements f _ _ = Some _ |- _ => apply IHe in E
           | E : parse_members f _ _ = Some _ |- _ => apply IHm in E
           end;
    simpl in *; lia.
Qed.

(** Record, once, how much each successful recursive call consumed. *)
Ltac recursive_lengths f :=
  repeat match goal with
         | E : parse_value f ?s = Some (_, ?r) |- _ =>
             lazymatch goal with
             | _ : (List.length r < List.length s)%nat |- _ => fail
             | _ => pose proof (proj1 (parse_consumes f) _ _ _ E)
             end
         | E : parse_elements f ?s _ = Some (_, ?r) |- _ =>
             lazymatch goal with
             | _ : (List.length r < List.length s)%nat |- _ => fail
             | _ => pose proof (proj1 (proj2 (parse_consumes f)) _ _ _ _ E)
             end
         | E : parse_members f ?s _ = Some (_, ?r) |- _ =>
             lazymatch goal with
             | _ : (List.length r < List.length s)%nat |- _ => fail
             | _ => pose proof (proj2 (proj2 (parse_consumes f)) _ _ _ _ E)
             end
         end.

(** The same for the non-recursive steps, keeping their equations. *)
Ltac step_lengths :=
  repeat match goal with
         | E : skip_ws ?s = _ :: ?r |- _ =>
             lazymatch goal with
             | _ : (List.length r < List.length s)%nat |- _ => fail
             | _ => pose proof (skip_ws_cons _ E)
             end
         | E : parse_string ?s _ = Some (_, ?r) |- _ =>
             lazymatch goal with
             | _ : (List.length r < List.length s)%nat |- _ => fail
             | _ => pose proof (parse_string_rest _ _ E)
             end
         end.

(** A parse that succeeds with some fuel succeeds, with the same result,
    with any fuel of at least twice the length of the input. *)
Lemma parse_fuel_enough (f : nat) :
  (forall s x f', parse_value f s = Some x ->
                  (2 * List.length s <= f')%nat ->
                  parse_value f' s = Some x) /\
  (forall s acc x f', parse_elements f s acc = Some x ->
                      (2 * List.length s + 1 <= f')%nat ->
                      parse_elements f' s acc = Some x) /\
  (forall s acc x f', parse_members f s acc = Some x ->
                      (2 * List.length s + 1 <= f')%nat ->
                      parse_members f' s acc = Some x).
Proof.
  induction f as [|f (IHv & IHe & IHm)];
    [repeat split; intros; discriminate|].
  repeat split.
  - intros s [v r] f' H Hf.
    pose proof (proj1 (parse_consumes (S f)) _ _ _ H) as Hc.
    destruct f' as [|f2]; [lia|].
    simpl in H |- *. split_matches H; recursive_lengths f; step_lengths;
      simpl in *;
      repeat (match goal with
              | E : parse_elements f ?s' ?a = Some ?y
                |- context [parse_elements f2 ?s' ?a] =>
                  rewrite (IHe s' a y f2 E) by (simpl; lia)
              | E : parse_members f ?s' ?a = Some ?y
                |- context [parse_members f2 ?s' ?a] =>
                  rewrite (IHm s' a y f2 E) by (simpl; lia)
              end; cbv beta iota);
      exact H.
  - intros s acc [l r] f' H Hf.
    destruct f' as [|f2]; [lia|].
    simpl in H |- *. split_matches H; recursive_lengths f; step_lengths;
      simpl in *;
      repeat (match goal with
              | E : parse_value f ?s' = Some ?y
                |- context [parse_value f2 ?s'] =>
                  rewrite (IHv s' y f2 E) by (simpl; lia)
              | E : parse_elements f ?s' ?a = Some ?y
                |- context [parse_elements f2 ?s' ?a] =>
                  rewrite (IHe s' a y f2 E) by (simpl; lia)
              | E : ?e = _ |- context [match ?e with _ => _ end] => rewrite E
              end; cbv beta iota);
      try exact H; try reflexivity.
  - intros s acc [l r] f' H Hf.
    destruct f' as [|f2]; [lia|].
    simpl in H |- *. split_matches H; recursive_lengths f; step_lengths;
      simpl in *;
      repeat (match goal with
              | E : parse_value f ?s' = Some ?y
                |- context [parse_value f2 ?s'] =>
                  rewrite (IHv s' y f2 E) by (simpl; lia)
              | E : parse_members f ?s' ?a = Some ?y
                |- context [parse_members f2 ?s' ?a] =>
                  rewrite (IHm s' a y f2 E) by (simpl; lia)
              | E : ?e = _ |- context [match ?e with _ => _ end] => rewrite E
              end; cbv beta iota);
      try exact H; try reflexivity.
Qed.

(** [JSON.parse] rejects a text only if no amount of fuel would let the
    descent accept it. *)
Theorem parse_fuel_adequate (s : jsstring) (f : nat) (x : json * jsstring) :
  parse_value f s = Some x -> parse_value (fuel_for s) s = Some x.
Proof.
  intros H. apply (proj1 (parse_fuel_enough f) s x (fuel_for s) H).
  unfold fuel_for. lia.
Qed.

End JSONFacts.

(** ** The reply decoders *)

Section CodecFacts.

Import JS JSON Codec Examples.

Local Open Scope Z_scope.

Lemma METADATA_START_length : length METADATA_START = 15.
Proof. reflexivity. Qed.

Lemma METADATA_END_length : length METADATA_END = 13.
Proof. reflexivity. Qed.

(** When the first start sentinel ends before the first end sentinel
    begins, the input splits around the block and the server decoder
    returns the text around it, trimmed, whatever the payload is. *)
Lemma decode_block (s : jsstring) :
  indexOf s METADATA_START <> -1 ->
  indexOf s METADATA_END <> -1 ->
  indexOf s METADATA_START + 15 <= indexOf s METADATA_END ->
  exists pre payload post,
    s = pre ++ METADATA_START ++ payload ++ METADATA_END ++ post /\
    length pre = indexOf s METADATA_START /\
    slice s (indexOf s METADATA_START + 15) (indexOf s METADATA_END) = payload /\
    decode s = (trim (pre ++ post),
                match read_sources payload with
                | Some v => v
                | None => JArr []
                end).
Proof.
  intros Hi Hj Hij.
  destruct (indexOf_occurrence _ _ Hi) as (a & b & Ha & La).
  destruct (indexOf_occurrence _ _ Hj) as (a' & b' & Ha' & La').
  assert (E : (a ++ METADATA_START) ++ b = a' ++ METADATA_END ++ b').
  { rewrite <- app_assoc, <- Ha. exact Ha'. }
  assert (P : exists payload,
             a' = (a ++ METADATA_START) ++ payload /\
             b = payload ++ METADATA_END ++ b').
  { apply app_eq_app in E as [m [[E1 E2] | [E1 E2]]].
    - (* the end sentinel cannot begin inside [a ++ METADATA_START] *)
      assert (L : length (a ++ METADATA_START) = length (a' ++ m))
        by now rewrite E1.
      rewrite !length_app, METADATA_START_length in L.
      assert (Lm : length m = 0) by (pose proof (length_nonneg m); lia).
      destruct m as [|c m]; [|unfold length in Lm; simpl in Lm; lia].
      rewrite app_nil_r in E1. rewrite app_nil_l in E2.
      exists []. rewrite app_nil_r, app_nil_l. split; congruence.
    - exists m. split; assumption. }
  destruct P as (payload & -> & ->).
  exists a, payload, b'.
  assert (S1 : slice s (indexOf s METADATA_START + 15)
                       (indexOf s METADATA_END) = payload).
  { rewrite <- La', <- La, !length_app, METADATA_START_length.
    rewrite Ha at 1.
    replace (a ++ METADATA_START ++ payload ++ METADATA_END ++ b')
      with ((a ++ METADATA_START) ++ payload ++ METADATA_END ++ b')
      by now rewrite <- !app_assoc.
    replace (length a + 15) with (length (a ++ METADATA_START))
      by now rewrite length_app, METADATA_START_length.
    apply slice_middle. }
  repeat split; [exact Ha | exact La | exact S1 |].
  unfold decode.
  destruct (indexOf s METADATA_START =? -1) eqn:Ei;
    [apply Z.eqb_eq in Ei; contradiction|].
  destruct (indexOf s METADATA_END =? -1) eqn:Ej;
    [apply Z.eqb_eq in Ej; contradiction|].
  cbn [negb andb]. rewrite S1. f_equal. unfold concat. f_equal. f_equal.
  - rewrite <- La, Ha. apply substring_prefix.
  - rewrite <- La'. rewrite <- METADATA_END_length, <- length_app.
    rewrite Ha at 1.
    replace (a ++ METADATA_START ++ payload ++ METADATA_END ++ b')
      with ((((a ++ METADATA_START) ++ payload) ++ METADATA_END) ++ b')
      by now rewrite <- !app_assoc.
    apply substring_from_suffix.
Qed.

(** The same, when the payload is rejected: no sources, and the block is
    still cut out of the server's answer. *)
Lemma decode_strips_unparsable_block (s : jsstring) :
  indexOf s METADATA_START <> -1 ->
  indexOf s METADATA_END <> -1 ->
  indexOf s METADATA_START + 15 <= indexOf s METADATA_END ->
  parse (jsonStr_fixed (slice s (indexOf s METADATA_START + 15)
                                (indexOf s METADATA_END))) = None ->
  exists pre payload post,
    s = pre ++ METADATA_START ++ payload ++ METADATA_END ++ post /\
    decode s = (trim (pre ++ post), JArr []).
Proof.
  intros Hi Hj Hij Hp.
  destruct (decode_block s Hi Hj Hij) as (pre & payload & post & Hs & _ & Hsl & Hd).
  exists pre, payload, post. split; [exact Hs|].
  rewrite Hd. unfold read_sources. rewrite <- Hsl, Hp. reflexivity.
Qed.

(** When the first end sentinel begins at or before the first start
    sentinel, the server still takes the block branch: the payload is the
    empty string, which [JSON.parse] rejects, and the answer is glued from
    the text before the start sentinel and the text after that end
    sentinel. *)
Lemma decode_end_before_start (s : jsstring) :
  indexOf s METADATA_START <> -1 ->
  indexOf s METADATA_END <> -1 ->
  indexOf s METADATA_END <= indexOf s METADATA_START ->
  decode s
  = (trim (concat (substring s 0 (indexOf s METADATA_START))
                  (substring_from s (indexOf s METADATA_END + 13))),
     JArr []).
Proof.
  intros Hi Hj Hji. unfold decode.
  destruct (indexOf s METADATA_START =? -1) eqn:Ei;
    [apply Z.eqb_eq in Ei; contradiction|].
  destruct (indexOf s METADATA_END =? -1) eqn:Ej;
    [apply Z.eqb_eq in Ej; contradiction|].
  cbn [negb andb]. rewrite slice_reversed; [reflexivity|].
  destruct (indexOf_range s METADATA_END) as [H | H]; [contradiction | lia].
Qed.

(** With a sentinel missing, the server returns its input as it is. *)
Lemma decode_without_sentinel (s : jsstring) :
  indexOf s METADATA_START = -1 \/ indexOf s METADATA_END = -1 ->
  decode s = (s, JArr []).
Proof.
  intros [H | H]; unfold decode; rewrite H; cbn [Z.eqb negb andb];
    [reflexivity | now rewrite andb_false_r].
Qed.

Lemma drop_while_stuck (f : N -> bool) (s : jsstring) :
  match s with [] => True | c :: _ => f c = false end ->
  drop_while f s = s.
Proof. destruct s as [|c s]; simpl; [reflexivity | now intros ->]. Qed.

Lemma is_newline_space (c : N) : is_space c = false -> is_newline c = false.
Proof.
  unfold is_space, is_newline. intros H.
  destruct (N.eqb_spec c 10) as [-> | _]; [discriminate H|].
  destruct (N.eqb_spec c 13) as [-> | _]; [discriminate H|].
  reflexivity.
Qed.

Lemma head_weaken (s : jsstring) :
  match s with [] => True | c :: _ => is_space c = false end ->
  match s with [] => True | c :: _ => is_newline c = false end.
Proof. destruct s; [trivial | apply is_newline_space]. Qed.

(** After [trim], the two newline-stripping replacements of the client
    find nothing to remove. *)
Lemma trim_has_no_outer_newlines (s : jsstring) :
  strip_trailing_newlines (strip_leading_newlines (trim s)) = trim s.
Proof.
  unfold strip_trailing_newlines, strip_leading_newlines, trim, drop_while_end.
  set (u := drop_while is_space s).
  assert (Hu : match u with [] => True | c :: _ => is_space c = false end)
    by apply drop_while_head.
  set (v := drop_while is_space (rev u)).
  assert (Hv : match v with [] => True | c :: _ => is_space c = false end)
    by apply drop_while_head.
  assert (Hr : match rev v with [] => True | c :: _ => is_space c = false end).
  { destruct u as [|c u']; [subst v; exact I|].
    subst v. simpl rev at 2.
    assert (G : forall l, exists l',
               drop_while is_space (l ++ [c]) = l' ++ [c]).
    { induction l as [|x l IH]; simpl.
      - rewrite Hu. now exists [].
      - destruct (is_space x); [exact IH | now exists (x :: l)]. }
    destruct (G (rev u')) as [l' ->].
    rewrite rev_app_distr. simpl. exact Hu. }
  rewrite (drop_while_stuck _ _ (head_weaken _ Hr)).
  rewrite rev_involutive.
  rewrite (drop_while_stuck _ _ (head_weaken _ Hv)).
  reflexivity.
Qed.

(** With a sentinel missing, the client returns its input trimmed. *)
Lemma parseRAGResponse_without_sentinel (s : jsstring) :
  indexOf s METADATA_START = -1 \/ indexOf s METADATA_END = -1 ->
  answer (parseRAGResponse s) = trim s /\
  sources (parseRAGResponse s) = JArr [].
Proof.
  intros H. unfold parseRAGResponse.
  assert (E : negb (indexOf s METADATA_START =? -1)
              && negb (indexOf s METADATA_END =? -1) = false).
  { destruct H as [H | H]; rewrite H; cbn [Z.eqb negb andb];
      [reflexivity | apply andb_false_r]. }
  rewrite E. cbn [answer sources]. split; [|reflexivity].
  apply trim_has_no_outer_newlines.
Qed.

(** With both sentinels present and a payload that [JSON.parse] rejects,
    the client returns its whole input, trimmed: the block stays in. *)
Lemma parseRAGResponse_unparsable_block (s : jsstring) :
  indexOf s METADATA_START <> -1 ->
  indexOf s METADATA_END <> -1 ->
  parse (jsonStr_fixed (slice s (indexOf s METADATA_START + 15)
                                (indexOf s METADATA_END))) = None ->
  answer (parseRAGResponse s) = trim s /\
  sources (parseRAGResponse s) = JArr [].
Proof.
  intros Hi Hj Hp. unfold parseRAGResponse.
  destruct (indexOf s METADATA_START =? -1) eqn:Ei;
    [apply Z.eqb_eq in Ei; contradiction|].
  destruct (indexOf s METADATA_END =? -1) eqn:Ej;
    [apply Z.eqb_eq in Ej; contradiction|].
  cbn [negb andb]. unfold read_metadata. rewrite Hp.
  cbn [answer sources]. split; [|reflexivity].
  apply trim_has_no_outer_newlines.
Qed.

(** C5.  Decoding the worked example: the four replacements turn the
    single-quoted payload into strict JSON, [JSON.parse] accepts it, the
    sources are [["a.pdf (p.1)"]] and the visible answer is
    ["hello  world"], with the two spaces that surrounded the block. *)
Theorem decode_worked_example :
  slice hello_world (indexOf hello_world METADATA_START + 15)
        (indexOf hello_world METADATA_END) = hello_world_payload /\
  jsonStr_fixed hello_world_payload = hello_world_json /\
  parse hello_world_json
  = Some (JObj [(lit "sources", JArr [JStr (lit "a.pdf (p.1)")]);
                (lit "context", JStr (lit "x"))]) /\
  decode hello_world
  = (lit "hello  world", JArr [JStr (lit "a.pdf (p.1)")]).
Proof. repeat split; vm_compute; reflexivity. Qed.

(** C10.  A well-formed block whose payload holds an apostrophe inside a
    string value: replacing every single quote breaks the JSON, so both
    decoders return no sources, although the same payload without the
    apostrophe yields its source; the server still removes the block from
    the visible answer. *)
Theorem apostrophe_in_payload_loses_sources :
  In 39%N johns_payload /\
  parse (jsonStr_fixed johns_payload) = None /\
  parse (jsonStr_fixed johns_payload_plain)
  = Some (JObj [(lit "sources", JArr [JStr (lit "Johns notes.pdf")])]) /\
  decode johns_block = ([], JArr []) /\
  decode johns_reply = (lit "See the notes.  Bye.", JArr []) /\
  sources (parseRAGResponse johns_block) = JArr [] /\
  sources (parseRAGResponse johns_reply) = JArr [].
Proof.
  split; [vm_compute; tauto|].
  repeat split; vm_compute; reflexivity.
Qed.

(** C3.  On a block whose payload is rejected by [JSON.parse] the server
    decoder returns no sources and the text with the block removed, but
    [parseRAGResponse] returns the text with the block still in it. *)
Theorem parseRAGResponse_keeps_unparsable_block :
  parse (jsonStr_fixed (lit "{oops}")) = None /\
  decode broken_block_reply = (lit "Hi  there", JArr []) /\
  answer (parseRAGResponse broken_block_reply) = broken_block_reply /\
  sources (parseRAGResponse broken_block_reply) = JArr [].
Proof. repeat split; vm_compute; reflexivity. Qed.

(** C4.  The end sentinel is searched from the start of the text, not
    after the start sentinel: an end sentinel that only occurs before the
    start sentinel still counts as a block, and the server's answer is
    then not its input; a stray end sentinel in front of a complete block
    hides that block's sources. *)
Theorem decode_end_sentinel_before_start :
  indexOf end_before_start METADATA_END = 0 /\
  indexOf end_before_start METADATA_START = 16 /\
  decode end_before_start
  = (lit ":METADATA_END x  x METADATA_START:", JArr []) /\
  fst (decode end_before_start) <> end_before_start /\
  decode stray_end_then_block
  = (lit "Done:METADATA_END. . METADATA_START:{'sources': ['a.pdf']}:METADATA_END",
     JArr []) /\
  sources (parseRAGResponse stray_end_then_block) = JArr [].
Proof.
  repeat split; try (vm_compute; reflexivity).
  vm_compute. discriminate.
Qed.

(** C6.  On a text without sentinels the server decoder returns the text
    as it is, surrounding white space included, where [trim] and the
    client parser give the trimmed text. *)
Theorem decode_without_sentinel_not_trimmed :
  indexOf padded METADATA_START = -1 /\
  indexOf padded METADATA_END = -1 /\
  decode padded = (lit " hi ", JArr []) /\
  trim padded = lit "hi" /\
  answer (parseRAGResponse padded) = lit "hi".
Proof. repeat split; vm_compute; reflexivity. Qed.

End CodecFacts.

(** ** The hook and the handlers *)

Section ChatFacts.

Import JS JSON Codec Ledger Chat Sessions Examples.

Local Open Scope Z_scope.

Variable env : environment.

Lemma eqb_refl (s : jsstring) : JS.eqb s s = true.
Proof. induction s as [|c s IH]; simpl; [reflexivity|]. now rewrite N.eqb_refl. Qed.

(** Removing the scheme from a ["Bearer "] header leaves the token. *)
Lemma replace_first_prefix (p t : jsstring) : replace_first (p ++ t) p [] = t.
Proof.
  unfold replace_first. rewrite indexOf_prefix. cbn [Z.eqb].
  rewrite Z.add_0_l, substring_from_suffix.
  pose proof (substring_prefix [] (p ++ t)) as E.
  change (substring (p ++ t) 0 0 = []) in E.
  now rewrite E.
Qed.

Lemma token_header_request (t : jsstring) (b : chat_body) :
  token (header_request t b) = Some t.
Proof.
  unfold token, header_request; cbn [authorization cookie_token].
  now rewrite startsWith_app, replace_first_prefix.
Qed.

Lemma token_cookie_request (t : jsstring) (b : chat_body) :
  token (cookie_request t b) = Some t.
Proof. reflexivity. Qed.

(** C7.  A request whose token fails verification (bad signature or
    expired: [jwt.verify] throws) is answered 401 by both chat endpoints,
    with the world untouched, exactly as the same request without any
    token; and a token sent only in the cookie resolves to the same
    [req.user], hence the same replies, as the token sent only in the
    [Authorization] header. *)
Theorem token_resolution_degrades (req : request) (t : jsstring) (w : world) :
  (token req = Some t -> jwt_verify env t = None ->
   serve_post env req w
   = (Ok (Reply 401 (Message (lit "Authentication required."))), w) /\
   serve_get env req w
   = (Ok (Reply 401 (Message (lit "Authentication required."))), w) /\
   serve_post env req w = serve_post env (anonymous_request (body req)) w /\
   serve_get env req w = serve_get env (anonymous_request (body req)) w) /\
  (onRequest env (cookie_request t (body req))
   = onRequest env (header_request t (body req)) /\
   serve_post env (cookie_request t (body req)) w
   = serve_post env (header_request t (body req)) w /\
   serve_get env (cookie_request t (body req)) w
   = serve_get env (header_request t (body req)) w /\
   forall p, t <> [] -> jwt_verify env t = Some p ->
             onRequest env (cookie_request t (body req)) = Payload p).
Proof.
  split.
  - intros Ht Hv.
    assert (A : authenticated (onRequest env req) = None).
    { unfold onRequest. rewrite Ht. destruct t; [reflexivity|].
      now rewrite Hv. }
    unfold serve_post, serve_get, post_chat, get_chat. rewrite A.
    repeat split; reflexivity.
  - assert (E : onRequest env (cookie_request t (body req))
                = onRequest env (header_request t (body req))).
    { unfold onRequest.
      now rewrite token_header_request, token_cookie_request. }
    unfold serve_post, serve_get. rewrite E. repeat split.
    intros p Hne Hv. rewrite <- E. unfold onRequest.
    rewrite token_cookie_request. destruct t; [congruence|]. now rewrite Hv.
Qed.

(** *** The request body *)

Lemma same_stored_refl (v : column_value) : same_value v v = true.
Proof. destruct v; simpl; [apply Z.eqb_refl | apply Z.eqb_refl | apply eqb_refl]. Qed.

(** A body that yields a question was destructured without an exception. *)
Lemma destructure_question (b : chat_body) (x : json) :
  question b = Some x ->
  destructure b = Some (Some x, conversationId b).
Proof.
  unfold question, conversationId.
  destruct (destructure b) as [[q c]|]; [|discriminate].
  now intros ->.
Qed.

(** The body is [undefined] or [null] exactly when destructuring throws. *)
Lemma destructure_throws (b : chat_body) :
  destructure b = None <-> b = None \/ b = Some JNull.
Proof.
  unfold destructure. destruct b as [[| | | | |]|]; cbn [get];
    split; try discriminate; try tauto;
    intros [H | H]; discriminate H.
Qed.

(** X27.  An authenticated [POST /chat] whose body can be destructured
    and whose question is missing, falsy, or a string of white space only
    is answered 400 before any storage call: the world, hence every row
    of every scope, is left as it was. *)
Theorem post_chat_blank_question (req : request) (w : world) (userId : Z) :
  authenticated (onRequest env req) = Some userId ->
  destructure (body req) <> None ->
  (is_truthy (question (body req)) = false \/
   exists q, question (body req) = Some (JStr q) /\
             Forall (fun c => is_space c = true) q) ->
  serve_post env req w
  = (Ok (Reply 400 (Message (lit "Question is required."))), w).
Proof.
  intros Ha Hd Hq. unfold serve_post, post_chat. rewrite Ha.
  unfold question in Hq.
  destruct (destructure (body req)) as [[x c]|]; [|now elim Hd].
  destruct Hq as [Hq | (q & -> & Hq)]; [now rewrite Hq|].
  destruct q as [|c0 q]; [reflexivity|]. cbn [is_truthy truthy negb].
  now rewrite (trim_blank Hq).
Qed.

(** An authenticated [POST /chat] without a body, or with the body
    [null], is not answered by the handler: it throws before any storage
    call.  So does one whose question is truthy and not a string. *)
Lemma post_chat_throws (req : request) (w : world) (userId : Z) :
  authenticated (onRequest env req) = Some userId ->
  (destructure (body req) = None \/
   exists x, question (body req) = Some x /\ truthy x = true /\
             forall q, x <> JStr q) ->
  serve_post env req w = (Thrown, w).
Proof.
  intros Ha H. unfold serve_post, post_chat. rewrite Ha.
  destruct H as [-> | (x & Hq & Ht & Hs)]; [reflexivity|].
  rewrite (destructure_question _ Hq). cbn [is_truthy]. rewrite Ht.
  cbn [negb]. destruct x; try reflexivity. now elim (Hs s).
Qed.

(** *** Storage calls *)

Lemma storage_call_healthy {A} (f : table -> A * table) (n : nat) (w : world) :
  healthy (S n) w ->
  storage_call f w
  = (Ok (fst (f (db w))),
     {| db := snd (f (db w)); faults := tl (faults w) |}) /\
  healthy n {| db := snd (f (db w)); faults := tl (faults w) |}.
Proof.
  unfold healthy, storage_call. intros H.
  destruct (faults w) as [|[|] fs]; cbn [firstn forallb negb andb tl faults] in *.
  - destruct (f (db w)); split; [reflexivity | now destruct n].
  - discriminate.
  - destruct (f (db w)); split; [reflexivity | exact H].
Qed.

(** A storage call throws, leaving the table as it was, exactly when the
    next entry of the schedule says so. *)
Lemma storage_call_cases {A} (f : table -> A * table) (w : world) :
  (hd false (faults w) = true /\
   storage_call f w = (Thrown, {| db := db w; faults := tl (faults w) |})) \/
  (hd false (faults w) = false /\
   storage_call f w
   = (Ok (fst (f (db w))),
      {| db := snd (f (db w)); faults := tl (faults w) |})).
Proof.
  unfold storage_call.
  destruct (faults w) as [|[|] fs]; cbn [tl hd];
    [right | left | right]; (split; [reflexivity|]);
    try reflexivity; now destruct (f (db w)).
Qed.

Lemma hd_tl_tl (l : list bool) : hd false (tl (tl l)) = nth 2 l false.
Proof. now destruct l as [|a [|b [|c l]]]. Qed.

Lemma tl_tl_tl (l : list bool) : tl (tl (tl l)) = skipn 3 l.
Proof. now destruct l as [|a [|b [|c l]]]. Qed.

Lemma healthy_faults_nil (n : nat) (t : table) :
  healthy n {| db := t; faults := [] |}.
Proof. unfold healthy. now destruct n. Qed.

(** With storage working, an append returns the count of the user's rows
    plus one and adds one row carrying that index. *)
Lemma append_turn_healthy (convId : json) (userId : Z) (text : jsstring)
    (who : Speaker) (n : nat) (w : world) :
  healthy (S (S n)) w ->
  let idx := count_by_user (db w) userId + 1 in
  let w' := {| db := insert (db w) convId userId text who idx;
               faults := tl (tl (faults w)) |} in
  append_turn convId userId text who w = (Ok idx, w') /\ healthy n w'.
Proof.
  intros H idx w'. unfold append_turn, bind, db_get_count, db_run_insert.
  destruct (storage_call_healthy
              (fun t => (count_by_user t userId, t)) H) as [E1 H1].
  rewrite E1. cbn [fst snd] in *.
  destruct (storage_call_healthy
              (fun t => (tt, insert t convId userId text who idx)) H1)
    as [E2 H2].
  cbn [fst snd db faults] in *. fold idx. rewrite E2.
  split; [reflexivity | exact H2].
Qed.

(** An append throws without adding a row when one of its two storage
    calls is scheduled to fail, and otherwise adds exactly the row of the
    healthy case. *)
Lemma append_turn_cases (convId : json) (userId : Z) (text : jsstring)
    (who : Speaker) (w : world) :
  let idx := count_by_user (db w) userId + 1 in
  (forallb negb (firstn 2 (faults w)) = false /\
   exists fs, append_turn convId userId text who w
              = (Thrown, {| db := db w; faults := fs |})) \/
  (forallb negb (firstn 2 (faults w)) = true /\
   append_turn convId userId text who w
   = (Ok idx, {| db := insert (db w) convId userId text who idx;
                 faults := tl (tl (faults w)) |})).
Proof.
  intros idx. unfold append_turn, bind, db_get_count, db_run_insert, storage_call.
  destruct (faults w) as [|[|] [|[|] fs]]; cbn;
    [right | left | left | left | right | left | right];
    (split; [reflexivity|]); try reflexivity; eexists; reflexivity.
Qed.

Lemma In_place (le : Z -> Z -> bool) (m x : message) (l : list message) :
  In x (place le m l) <-> x = m \/ In x l.
Proof.
  induction l as [|y l IH]; simpl.
  - intuition congruence.
  - destruct (le (message_index m) (message_index y)); simpl; [intuition congruence|].
    rewrite IH. intuition congruence.
Qed.

(** Ordering keeps exactly the selected rows. *)
Lemma In_order_by (le : Z -> Z -> bool) (x : message) (l : list message) :
  In x (order_by le l) <-> In x l.
Proof.
  induction l as [|y l IH]; simpl; [reflexivity|].
  rewrite In_place, IH. intuition congruence.
Qed.

(** *** Failure of the inference service *)

(** C9 (amended).  When the user's turn was appended and the call to the
    inference service fails, [POST /chat] answers 502 and the table is the
    old one plus the user's row; [GET /chat], which reads the
    ["default-session"] conversation only, lists that row whenever the
    request used that conversation. *)
Theorem inference_failure_keeps_user_turn (req : request) (w : world)
    (userId : Z) (q aiUrl : jsstring) :
  authenticated (onRequest env req) = Some userId ->
  question (body req) = Some (JStr q) ->
  trim q <> [] ->
  AI_SERVICE_URL env = Some aiUrl ->
  aiUrl <> [] ->
  healthy 4 w ->
  let convId := conv_or_default (conversationId (body req)) in
  let idx := count_by_user (db w) userId + 1 in
  let row := {| message_id := last_id (db w) + 1;
                conversation_id := convId;
                user_id := userId;
                content := q;
                speaker := User;
                message_index := idx |} in
  got_post_text env
    (inference_request env userId q convId aiUrl
       (insert (db w) convId userId q User idx)) = None ->
  exists w',
    serve_post env req w
    = (Ok (Reply 502 (Failure (lit "AI service unavailable"))), w') /\
    rows (db w') = rows (db w) ++ [row] /\
    (convId = default_session ->
     exists msgs w'',
       serve_get env req w'
       = (Ok (Reply 200 (History default_session userId msgs)), w'') /\
       In (format_message row) msgs /\
       db w'' = db w').
Proof.
  intros Ha Hq Ht Hu Hne Hh convId idx row Hai.
  destruct (append_turn_healthy convId userId q User Hh) as [E1 H1].
  fold idx in E1, H1.
  set (w1 := {| db := insert (db w) convId userId q User idx;
                faults := tl (tl (faults w)) |}) in *.
  destruct (storage_call_healthy
              (fun t => (select_last8 (sqlite_affinity env) t userId convId, t))
              H1) as [E2 H2].
  cbn [fst snd] in E2, H2.
  set (w2 := {| db := db w1; faults := tl (faults w1) |}) in *.
  exists w2. split; [|split].
  - unfold serve_post, post_chat. rewrite Ha, (destructure_question _ Hq).
    destruct q as [|c q]; [now elim Ht|]. cbn [is_truthy truthy negb].
    destruct (trim (c :: q)) as [|c0 q0] eqn:Et; [now elim Ht|].
    rewrite Hu. destruct aiUrl as [|c1 url]; [now elim Hne|].
    fold convId.
    unfold bind at 1. unfold try_catch at 1. unfold bind at 1.
    rewrite E1. unfold ret at 1. cbv beta iota.
    unfold try_catch at 1. unfold bind at 1. unfold db_all_last8.
    rewrite E2. cbv beta iota.
    unfold bind at 1. unfold got_post.
    unfold inference_request in Hai. cbn [db w1] in *.
    rewrite Hai. reflexivity.
  - reflexivity.
  - intros Hc.
    destruct (storage_call_healthy
                (fun t => (select_asc (sqlite_affinity env) t userId
                                      default_session, t)) H2)
      as [E3 _].
    cbn [fst snd] in E3.
    eexists _, _. split; [|split].
    + unfold serve_get, get_chat. rewrite Ha.
      unfold try_catch, bind, db_all_asc. rewrite E3. reflexivity.
    + apply in_map. unfold select_asc. apply In_order_by.
      apply filter_In. split.
      * cbn. apply in_or_app. right. now left.
      * unfold in_scope, row. cbn [user_id conversation_id].
        rewrite Z.eqb_refl, Hc. apply same_stored_refl.
    + reflexivity.
Qed.

(** *** Every path of [POST /chat] *)

(** Every path of [POST /chat]: how it ends, the table it leaves, and
    what of the request, the environment and the storage schedule leads
    there. *)
Lemma post_chat_paths (req : request) (w : world) :
  exists o w',
    serve_post env req w = (o, w') /\
    ((authenticated (onRequest env req) = None /\
      o = Ok (Reply 401 (Message (lit "Authentication required."))) /\ w' = w)
     \/
     exists userId,
       authenticated (onRequest env req) = Some userId /\
       ((o = Thrown /\ w' = w /\
         (destructure (body req) = None \/
          exists x, question (body req) = Some x /\ truthy x = true /\
                    forall q, x <> JStr q))
        \/
        (o = Ok (Reply 400 (Message (lit "Question is required."))) /\ w' = w /\
         destructure (body req) <> None /\
         (is_truthy (question (body req)) = false \/
          exists q, question (body req) = Some (JStr q) /\ trim q = []))
        \/
        exists q,
          question (body req) = Some (JStr q) /\ trim q <> [] /\
          let convId := conv_or_default (conversationId (body req)) in
          let t1 := with_turn (db w) convId userId q User in
          ((forallb negb (firstn 2 (faults w)) = false /\
            o = Ok (Reply 500 (Failure (lit "Failed to store message"))) /\
            db w' = db w)
           \/
           (forallb negb (firstn 2 (faults w)) = true /\
            (((AI_SERVICE_URL env = None \/ AI_SERVICE_URL env = Some []) /\
              o = Ok (Reply 500 (Message (lit "AI service not configured."))) /\
              db w' = t1)
             \/
             exists aiUrl,
               AI_SERVICE_URL env = Some aiUrl /\ aiUrl <> [] /\
               (((nth 2 (faults w) false = true \/
                  got_post_text env
                    (inference_request env userId q convId aiUrl t1) = None) /\
                 o = Ok (Reply 502 (Failure (lit "AI service unavailable"))) /\
                 db w' = t1)
                \/
                exists T,
                  nth 2 (faults w) false = false /\
                  got_post_text env
                    (inference_request env userId q convId aiUrl t1) = Some T /\
                  o = Ok (Reply 200 (Answer (fst (decode T)) (snd (decode T))
                                            (fst (decode T)) convId)) /\
                  db w' = if forallb negb (firstn 2 (skipn 3 (faults w)))
                          then with_turn t1 convId userId (fst (decode T)) AI
                          else t1)))))).
Proof.
  unfold serve_post, post_chat.
  destruct (authenticated (onRequest env req)) as [userId|] eqn:Ha;
    [|eexists _, _; split; [reflexivity|]; left; repeat split].
  unfold question, conversationId.
  destruct (destructure (body req)) as [[x c]|] eqn:Hd.
  2:{ eexists _, _; split; [reflexivity|]. right. exists userId.
      split; [reflexivity|]. left. repeat split. now left. }
  destruct (is_truthy x) eqn:Hx; cbn [negb].
  2:{ eexists _, _; split; [reflexivity|]. right. exists userId.
      split; [reflexivity|]. right. left.
      repeat split; [discriminate | now left]. }
  destruct x as [x|]; [|discriminate Hx]. cbn [is_truthy] in Hx.
  destruct x as [| b | n | q | l | m];
    try (eexists _, _; split; [reflexivity|]; right; exists userId;
         split; [reflexivity|]; left; repeat split; right;
         eexists; split; [reflexivity|];
         split; [exact Hx | intros; discriminate]).
  destruct (trim q) as [|c0 q0] eqn:Et.
  { eexists _, _; split; [reflexivity|]. right. exists userId.
    split; [reflexivity|]. right. left.
    repeat split; [discriminate|]. right. now exists q. }
  set (convId := conv_or_default c).
  assert (Hne : trim q <> []) by (rewrite Et; discriminate).
  unfold bind at 1. unfold try_catch at 1. unfold bind at 1.
  destruct (append_turn_cases convId userId q User w)
    as [(F1 & fs & E1) | (F1 & E1)]; rewrite E1; cbv beta iota.
  { eexists _, _; split; [reflexivity|]. right. exists userId.
    split; [reflexivity|]. right. right. exists q.
    split; [reflexivity|]. split; [exact Hne|]. left. now repeat split. }
  unfold ret at 1. cbv beta iota.
  destruct (AI_SERVICE_URL env) as [[|c1 url]|] eqn:Hu.
  1,3: eexists _, _; split; [reflexivity|]; right; exists userId;
       split; [reflexivity|]; right; right; exists q;
       split; [reflexivity|]; split; [exact Hne|]; right;
       split; [exact F1|]; left; repeat split; tauto.
  unfold try_catch at 1. unfold bind at 1. unfold db_all_last8.
  match goal with
  | |- context [storage_call ?f ?w1] =>
      destruct (storage_call_cases f w1) as [(F2 & E2) | (F2 & E2)];
      rewrite E2
  end; cbv beta iota; cbn [fst snd db faults] in *;
    rewrite hd_tl_tl in F2.
  { eexists _, _; split; [reflexivity|]. right. exists userId.
    split; [reflexivity|]. right. right. exists q.
    split; [reflexivity|]. split; [exact Hne|]. right.
    split; [exact F1|]. right. exists (c1 :: url).
    split; [reflexivity|]. split; [discriminate|]. left.
    repeat split. now left. }
  unfold bind at 1. unfold got_post at 1.
  match goal with
  | |- context [got_post_text env ?rq] =>
      destruct (got_post_text env rq) as [T|] eqn:Hai
  end; cbv beta iota.
  2:{ eexists _, _; split; [reflexivity|]. right. exists userId.
      split; [reflexivity|]. right. right. exists q.
      split; [reflexivity|]. split; [exact Hne|]. right.
      split; [exact F1|]. right. exists (c1 :: url).
      split; [reflexivity|]. split; [discriminate|]. left.
      repeat split. right. exact Hai. }
  destruct (decode T) as [parsedAnswer sources] eqn:Ed.
  unfold bind at 1. unfold try_catch at 1. unfold bind at 1.
  match goal with
  | |- context [append_turn ?c' ?u' ?x' ?s' ?w1] =>
      destruct (append_turn_cases c' u' x' s' w1)
        as [(F3 & fs' & E3) | (F3 & E3)];
      rewrite E3
  end; cbv beta iota; unfold ret; cbn [db faults] in *;
    rewrite tl_tl_tl in F3.
  - eexists _, _; split; [reflexivity|]. right. exists userId.
    split; [reflexivity|]. right. right. exists q.
    split; [reflexivity|]. split; [exact Hne|]. right.
    split; [exact F1|]. right. exists (c1 :: url).
    split; [reflexivity|]. split; [discriminate|]. right. exists T.
    rewrite Ed. cbn [fst snd db]. rewrite F3.
    split; [exact F2|]. split; [exact Hai|]. split; reflexivity.
  - eexists _, _; split; [reflexivity|]. right. exists userId.
    split; [reflexivity|]. right. right. exists q.
    split; [reflexivity|]. split; [exact Hne|]. right.
    split; [exact F1|]. right. exists (c1 :: url).
    split; [reflexivity|]. split; [discriminate|]. right. exists T.
    rewrite Ed. cbn [fst snd db]. rewrite F3.
    split; [exact F2|]. split; [exact Hai|]. split; reflexivity.
Qed.

(** *** The AI turn *)

Lemma drop_while_length (f : N -> bool) (s : jsstring) :
  (List.length (drop_while f s) <= List.length s)%nat.
Proof.
  induction s as [|c s IH]; simpl; [lia|]. destruct (f c); simpl; lia.
Qed.

Lemma trim_length (s : jsstring) :
  (List.length (trim s) <= List.length s)%nat.
Proof.
  unfold trim, drop_while_end. rewrite length_rev.
  etransitivity; [apply drop_while_length|]. rewrite length_rev.
  apply drop_while_length.
Qed.

(** C2 (amended).  Whenever [POST /chat] answers 200, the inference
    service returned some text [T] and the reply carries the decoded
    answer of [T].  The AI row holds that same decoded answer, and it is
    written exactly when neither storage call of the AI turn is scheduled
    to fail; otherwise the table keeps the user's row only.  The decoded
    answer is [T] itself when a sentinel is missing; when the start
    sentinel is followed by the end sentinel it is the text around the
    block, trimmed, which is never [T]. *)
Theorem ai_turn_stores_parsed_answer (req : request) (w w' : world)
    (r : reply) :
  serve_post env req w = (Ok r, w') ->
  code r = 200 ->
  exists userId q aiUrl T,
    authenticated (onRequest env req) = Some userId /\
    question (body req) = Some (JStr q) /\
    AI_SERVICE_URL env = Some aiUrl /\
    let convId := conv_or_default (conversationId (body req)) in
    let t1 := insert (db w) convId userId q User
                     (count_by_user (db w) userId + 1) in
    got_post_text env (inference_request env userId q convId aiUrl t1)
    = Some T /\
    payload r = Answer (fst (decode T)) (snd (decode T)) (fst (decode T)) convId /\
    db w' = (if forallb negb (firstn 2 (skipn 3 (faults w)))
             then insert t1 convId userId (fst (decode T)) AI
                         (count_by_user t1 userId + 1)
             else t1) /\
    (indexOf T METADATA_START = -1 \/ indexOf T METADATA_END = -1 ->
     fst (decode T) = T) /\
    (indexOf T METADATA_START <> -1 ->
     indexOf T METADATA_START + 15 <= indexOf T METADATA_END ->
     fst (decode T) <> T /\
     exists pre payload post,
       T = pre ++ METADATA_START ++ payload ++ METADATA_END ++ post /\
       fst (decode T) = trim (pre ++ post)).
Proof.
  intros H H200.
  destruct (post_chat_paths req w) as (o & w1 & E & C).
  rewrite H in E. inversion E; subst o w1. clear E.
  destruct C as [(_ & C & _) | (userId & Ha & C)];
    [inversion C; subst r; discriminate|].
  destruct C as [(C & _) | [(C & _) | (q & Hq & Ht & C)]];
    try discriminate C; [inversion C; subst r; discriminate|].
  cbv zeta in C.
  destruct C as [(_ & C & _) | (_ & C)];
    [inversion C; subst r; discriminate|].
  destruct C as [(_ & C & _) | (aiUrl & Hu & _ & C)];
    [inversion C; subst r; discriminate|].
  destruct C as [(_ & C & _) | (T & _ & Hai & C & Hdb)];
    [inversion C; subst r; discriminate|].
  inversion C; subst r. clear C.
  exists userId, q, aiUrl, T.
  split; [exact Ha|]. split; [exact Hq|]. split; [exact Hu|]. cbv zeta.
  split; [exact Hai|]. split; [reflexivity|]. split; [exact Hdb|]. split.
  - intros Hs. now rewrite (decode_without_sentinel T Hs).
  - intros Hi Hij.
    assert (Hj : indexOf T METADATA_END <> -1).
    { pose proof (indexOf_range T METADATA_START). lia. }
    destruct (decode_block T Hi Hj Hij)
      as (pre & payload & post & Hs & _ & _ & Hd).
    rewrite Hd. cbn [fst]. split; [|now exists pre, payload, post].
    intros Heq. pose proof (trim_length (pre ++ post)) as L.
    rewrite Heq in L. rewrite Hs in L at 1.
    rewrite !List.length_app in L.
    assert (List.length METADATA_START = 15%nat) by reflexivity. lia.
Qed.

(** *** Message indices *)

Lemma count_by_user_insert (t : table) (convId : json) (u' : Z)
    (text : jsstring) (who : Speaker) (i u : Z) :
  count_by_user (insert t convId u' text who i) u
  = count_by_user t u + (if u' =? u then 1 else 0).
Proof.
  unfold count_by_user, insert. cbn [rows].
  rewrite filter_app, List.length_app. cbn [filter].
  unfold of_user at 2. cbn [user_id].
  destruct (u' =? u); cbn [List.length]; lia.
Qed.

Lemma filter_user_insert (t : table) (convId : json) (u' : Z)
    (text : jsstring) (who : Speaker) (i u : Z) :
  map message_index (filter (of_user u) (rows (insert t convId u' text who i)))
  = map message_index (filter (of_user u) (rows t))
    ++ (if u' =? u then [i] else []).
Proof.
  unfold insert. cbn [rows].
  rewrite filter_app, map_app. cbn [filter].
  unfold of_user at 2. cbn [user_id].
  now destruct (u' =? u).
Qed.

Lemma assigned_cons (sel : append_op -> bool) (o : append_op)
    (ops : list append_op) (i : Z) (idxs : list Z) :
  assigned sel (o :: ops) (i :: idxs)
  = if sel o then i :: assigned sel ops idxs else assigned sel ops idxs.
Proof. unfold assigned. cbn [combine filter fst]. now destruct (sel o). Qed.

Lemma assigned_ext (sel1 sel2 : append_op -> bool) (ops : list append_op) :
  (forall o, In o ops -> sel1 o = sel2 o) ->
  (forall idxs, assigned sel1 ops idxs = assigned sel2 ops idxs) /\
  List.length (filter sel1 ops) = List.length (filter sel2 ops).
Proof.
  induction ops as [|o ops IH]; intros H.
  - split; [intros idxs|]; reflexivity.
  - destruct IH as [IH1 IH2]; [intros o' Ho'; apply H; now right|].
    assert (E : sel1 o = sel2 o) by (apply H; now left).
    split.
    + intros [|i idxs]; [reflexivity|]. now rewrite !assigned_cons, E, IH1.
    + cbn [filter]. rewrite E. destruct (sel2 o); cbn [List.length]; lia.
Qed.

(** The indices of a run of appends, seen per user and per scope. *)
Lemma run_appends_indices (ops : list append_op) :
  forall w, healthy (2 * List.length ops) w ->
  exists idxs w',
    run_appends ops w = (Ok idxs, w') /\
    List.length idxs = List.length ops /\
    forall u,
      assigned (by_user u) ops idxs
      = zseq (count_by_user (db w) u + 1) (List.length (filter (by_user u) ops)) /\
      map message_index (filter (of_user u) (rows (db w')))
      = map message_index (filter (of_user u) (rows (db w)))
        ++ assigned (by_user u) ops idxs /\
      forall c,
        StronglySorted Z.lt
          (assigned (by_scope (sqlite_affinity env) u c) ops idxs) /\
        Forall (fun i => count_by_user (db w) u < i)
               (assigned (by_scope (sqlite_affinity env) u c) ops idxs).
Proof.
  induction ops as [|o ops IH]; intros w Hh.
  - exists [], w. split; [reflexivity|]. split; [reflexivity|].
    intros u. cbn. rewrite app_nil_r. repeat split; constructor.
  - replace (2 * List.length (o :: ops))%nat
      with (S (S (2 * List.length ops))) in Hh by (cbn [List.length]; lia).
    destruct (append_turn_healthy (op_conv o) (op_user o) (op_content o)
                                  (op_speaker o) Hh) as [E1 H1].
    set (i := count_by_user (db w) (op_user o) + 1) in *.
    set (w1 := {| db := insert (db w) (op_conv o) (op_user o) (op_content o)
                               (op_speaker o) i;
                  faults := tl (tl (faults w)) |}) in *.
    destruct (IH w1 H1) as (idxs & w' & Er & Hl & Hu).
    exists (i :: idxs), w'. split; [|split].
    + cbn [run_appends]. unfold bind at 1. rewrite E1.
      unfold bind at 1. rewrite Er. reflexivity.
    + cbn [List.length]. now rewrite Hl.
    + intros u. destruct (Hu u) as (Ha & Hm & Hs).
      cbn [db w1] in Ha, Hm.
      rewrite count_by_user_insert in Ha. rewrite filter_user_insert in Hm.
      rewrite !assigned_cons. cbn [filter].
      change (by_user u o) with (op_user o =? u).
      split; [|split].
      * destruct (op_user o =? u) eqn:Eu.
        -- apply Z.eqb_eq in Eu. cbn [List.length zseq]. f_equal.
           ++ unfold i. now rewrite Eu.
           ++ exact Ha.
        -- now rewrite Z.add_0_r in Ha.
      * rewrite Hm. destruct (op_user o =? u); [|now rewrite app_nil_r].
        now rewrite <- app_assoc.
      * intros c. destruct (Hs c) as [Hs1 Hs2].
        cbn [db w1] in Hs2. rewrite count_by_user_insert in Hs2.
        rewrite assigned_cons.
        change (by_scope (sqlite_affinity env) u c o)
          with ((op_user o =? u)
                && same_value (sqlite_affinity env (op_conv o))
                               (sqlite_affinity env c)).
        destruct (op_user o =? u) eqn:Eu; cbn [andb].
        -- apply Z.eqb_eq in Eu.
           assert (Hi : i = count_by_user (db w) u + 1)
             by (unfold i; now rewrite Eu).
           destruct (same_value (sqlite_affinity env (op_conv o))
                                 (sqlite_affinity env c)).
           ++ split.
              ** constructor; [exact Hs1|].
                 eapply Forall_impl; [|exact Hs2]. cbv beta. intros; lia.
              ** constructor; [lia|].
                 eapply Forall_impl; [|exact Hs2]. cbv beta. intros; lia.
           ++ split; [exact Hs1|].
              eapply Forall_impl; [|exact Hs2]. cbv beta. intros; lia.
        -- split; [exact Hs1|].
           eapply Forall_impl; [|exact Hs2]. cbv beta. intros; lia.
Qed.

(** C1 (amended).  Appends executed one at a time, storage working: the
    index of each is the count of the rows of the same user, over all
    conversations, plus one.  So the indices given to one user's appends
    are consecutive from that count on; within one (user, conversation)
    scope they are strictly increasing; and for a user without rows who
    appends under one conversation only they are exactly 1..N. *)
Theorem append_indices_count_user_rows (ops : list append_op) (w : world)
    (userId : Z) (convId : json) :
  healthy (2 * List.length ops) w ->
  exists idxs w',
    run_appends ops w = (Ok idxs, w') /\
    assigned (by_user userId) ops idxs
    = zseq (count_by_user (db w) userId + 1)
           (List.length (filter (by_user userId) ops)) /\
    map message_index (filter (of_user userId) (rows (db w')))
    = map message_index (filter (of_user userId) (rows (db w)))
      ++ assigned (by_user userId) ops idxs /\
    StronglySorted Z.lt
      (assigned (by_scope (sqlite_affinity env) userId convId) ops idxs) /\
    (count_by_user (db w) userId = 0 ->
     (forall o, In o ops -> op_user o = userId -> op_conv o = convId) ->
     assigned (by_scope (sqlite_affinity env) userId convId) ops idxs
     = zseq 1 (List.length
                 (filter (by_scope (sqlite_affinity env) userId convId) ops))).
Proof.
  intros Hh.
  destruct (run_appends_indices ops Hh) as (idxs & w' & Er & _ & Hu).
  destruct (Hu userId) as (Ha & Hm & Hs).
  exists idxs, w'. repeat split; try assumption.
  - apply Hs.
  - intros H0 Hall.
    destruct (assigned_ext (by_scope (sqlite_affinity env) userId convId)
                           (by_user userId) ops)
      as [E1 E2].
    { intros o Ho. unfold by_scope, by_user.
      destruct (op_user o =? userId) eqn:Eu; [|reflexivity].
      apply Z.eqb_eq in Eu. rewrite (Hall o Ho Eu). cbn [andb].
      apply same_stored_refl. }
    rewrite E1, E2, Ha, H0. reflexivity.
Qed.

End ChatFacts.

(** ** Concrete runs *)

Section Runs.

Import JS JSON Codec Ledger Chat Examples.

Local Open Scope Z_scope.

(** A user who writes under conversation ["a"] and then under ["b"]: the
    first row of scope [(1, "b")] gets index 2, although that scope holds
    no row when it is written. *)
Lemma append_index_counterexample :
  exists w1 w2,
    append_turn (JStr (lit "a")) 1 (lit "first") User fresh = (Ok 1, w1) /\
    count_in_scope affinity_example (db w1) 1 (JStr (lit "b")) = 0 /\
    append_turn (JStr (lit "b")) 1 (lit "second") User w1 = (Ok 2, w2) /\
    2 <> count_in_scope affinity_example (db w1) 1 (JStr (lit "b")) + 1 /\
    run_appends two_conversations fresh = (Ok [1; 2], w2) /\
    map message_index
        (filter (in_scope affinity_example 1 (JStr (lit "b"))) (rows (db w2)))
    = [2] /\
    [2] <> zseq 1 1.
Proof.
  eexists _, _.
  split; [vm_compute; reflexivity|].
  split; [vm_compute; reflexivity|].
  split; [vm_compute; reflexivity|].
  split; [vm_compute; discriminate|].
  split; [vm_compute; reflexivity|].
  split; [vm_compute; reflexivity | vm_compute; discriminate].
Qed.

Lemma append_indices_count_user_rows_witness :
  healthy (2 * List.length interleaved) fresh /\
  exists idxs w',
    run_appends interleaved fresh = (Ok idxs, w') /\
    assigned (by_user 1) interleaved idxs
    = zseq (count_by_user (db fresh) 1 + 1)
           (List.length (filter (by_user 1) interleaved)) /\
    map message_index (filter (of_user 1) (rows (db w')))
    = map message_index (filter (of_user 1) (rows (db fresh)))
      ++ assigned (by_user 1) interleaved idxs /\
    StronglySorted Z.lt
      (assigned (by_scope affinity_example 1 (JStr (lit "a"))) interleaved
                idxs) /\
    (count_by_user (db fresh) 1 = 0 ->
     (forall o, In o interleaved -> op_user o = 1 ->
                op_conv o = JStr (lit "a")) ->
     assigned (by_scope affinity_example 1 (JStr (lit "a"))) interleaved idxs
     = zseq 1 (List.length
                 (filter (by_scope affinity_example 1 (JStr (lit "a")))
                         interleaved))).
Proof.
  split; [reflexivity|].
  apply (@append_indices_count_user_rows (env_with None) interleaved fresh 1
           (JStr (lit "a"))).
  reflexivity.
Defined.

(** The worked example sent through [POST /chat]: the AI row holds the
    stripped answer, not the text the service returned. *)
Lemma ai_turn_counterexample :
  exists w',
    serve_post (env_with (Some hello_world))
               (header_request good_token (ask (lit "What?") None)) fresh
    = (Ok (Reply 200 (Answer (lit "hello  world")
                             (JArr [JStr (lit "a.pdf (p.1)")])
                             (lit "hello  world") default_session)), w') /\
    map (fun m => (speaker m, content m)) (rows (db w'))
    = [(User, lit "What?"); (AI, lit "hello  world")] /\
    lit "hello  world" <> hello_world.
Proof.
  eexists. split; [vm_compute; reflexivity|].
  split; [vm_compute; reflexivity | vm_compute; discriminate].
Qed.

Lemma ai_turn_stores_parsed_answer_witness :
  let env := env_with (Some hello_world) in
  let req := header_request good_token (ask (lit "What?") None) in
  let r := Reply 200 (Answer (lit "hello  world")
                             (JArr [JStr (lit "a.pdf (p.1)")])
                             (lit "hello  world") default_session) in
  let w' := snd (serve_post env req fresh) in
  serve_post env req fresh = (Ok r, w') /\
  code r = 200 /\
  exists userId q aiUrl T,
    authenticated (onRequest env req) = Some userId /\
    question (body req) = Some (JStr q) /\
    AI_SERVICE_URL env = Some aiUrl /\
    let convId := conv_or_default (conversationId (body req)) in
    let t1 := insert (db fresh) convId userId q User
                     (count_by_user (db fresh) userId + 1) in
    got_post_text env (inference_request env userId q convId aiUrl t1)
    = Some T /\
    payload r = Answer (fst (decode T)) (snd (decode T)) (fst (decode T)) convId /\
    db w' = (if forallb negb (firstn 2 (skipn 3 (faults fresh)))
             then insert t1 convId userId (fst (decode T)) AI
                         (count_by_user t1 userId + 1)
             else t1) /\
    (indexOf T METADATA_START = -1 \/ indexOf T METADATA_END = -1 ->
     fst (decode T) = T) /\
    (indexOf T METADATA_START <> -1 ->
     indexOf T METADATA_START + 15 <= indexOf T METADATA_END ->
     fst (decode T) <> T /\
     exists pre payload post,
       T = pre ++ METADATA_START ++ payload ++ METADATA_END ++ post /\
       fst (decode T) = trim (pre ++ post)).
Proof.
  intros env req r w'.
  assert (H : serve_post env req fresh = (Ok r, w'))
    by (vm_compute; reflexivity).
  split; [exact H|]. split; [reflexivity|].
  exact (@ai_turn_stores_parsed_answer env req fresh w' r H eq_refl).
Defined.

Lemma token_resolution_degrades_witness :
  let env := env_with (Some hello_world) in
  let forged := lit "forged.token" in
  let req := header_request forged (ask (lit "What?") None) in
  token req = Some forged /\
  jwt_verify env forged = None /\
  serve_post env req fresh
  = (Ok (Reply 401 (Message (lit "Authentication required."))), fresh) /\
  serve_post env req fresh = serve_post env (anonymous_request (body req)) fresh /\
  onRequest env (cookie_request good_token (body req)) = Payload alice /\
  onRequest env (header_request good_token (body req)) = Payload alice.
Proof.
  intros env forged req.
  assert (Ht : token req = Some forged) by (vm_compute; reflexivity).
  assert (Hv : jwt_verify env forged = None) by (vm_compute; reflexivity).
  destruct (@token_resolution_degrades env req forged fresh) as [H _].
  destruct (H Ht Hv) as (H1 & _ & H3 & _).
  destruct (@token_resolution_degrades env req good_token fresh)
    as [_ (E & _ & _ & Hp)].
  assert (Hg : onRequest env (cookie_request good_token (body req))
               = Payload alice).
  { apply Hp; [vm_compute; discriminate | vm_compute; reflexivity]. }
  repeat split; try assumption; rewrite <- E; exact Hg.
Defined.

(** C8.  An authenticated [POST /chat] sent without a body has no
    question, yet it is not answered 400: destructuring [req.body] throws
    outside every [try], the exception leaves the handler, and no row is
    written.  The same happens with the body [null].  With the body [{}],
    or with a question made of spaces, the handler does answer 400. *)
Theorem post_chat_without_body_throws :
  let env := env_with (Some hello_world) in
  let blank := Reply 400 (Message (lit "Question is required.")) in
  authenticated (onRequest env (header_request good_token None)) = Some 7 /\
  question None = None /\
  serve_post env (header_request good_token None) fresh = (Thrown, fresh) /\
  serve_post env (header_request good_token (Some JNull)) fresh
  = (Thrown, fresh) /\
  serve_post env (header_request good_token (Some (JObj []))) fresh
  = (Ok blank, fresh) /\
  serve_post env (header_request good_token (ask (lit "   ") None)) fresh
  = (Ok blank, fresh).
Proof. intros env blank. repeat split; vm_compute; reflexivity. Qed.

(** A question asked under conversation ["c2"] while the inference service
    is down: 502, the row is in the table, and [GET /chat] does not list
    it. *)
Lemma inference_failure_counterexample :
  let env := env_with None in
  let req := header_request good_token (ask (lit "Why?") (Some (lit "c2"))) in
  exists w' w'',
    serve_post env req fresh
    = (Ok (Reply 502 (Failure (lit "AI service unavailable"))), w') /\
    map (fun m => (user_id m, conversation_id m, content m)) (rows (db w'))
    = [(7, JStr (lit "c2"), lit "Why?")] /\
    serve_get env req w'
    = (Ok (Reply 200 (History default_session 7 [])), w'').
Proof.
  intros env req. eexists _, _.
  split; [vm_compute; reflexivity|].
  split; vm_compute; reflexivity.
Qed.

Lemma inference_failure_keeps_user_turn_witness :
  let env := env_with None in
  let req := header_request good_token (ask (lit "Why?") None) in
  let row := {| message_id := 1; conversation_id := default_session;
                user_id := 7; content := lit "Why?"; speaker := User;
                message_index := 1 |} in
  healthy 4 fresh /\
  exists w',
    serve_post env req fresh
    = (Ok (Reply 502 (Failure (lit "AI service unavailable"))), w') /\
    rows (db w') = rows (db fresh) ++ [row] /\
    (conv_or_default (conversationId (body req)) = default_session ->
     exists msgs w'',
       serve_get env req w'
       = (Ok (Reply 200 (History default_session 7 msgs)), w'') /\
       In (format_message row) msgs /\
       db w'' = db w').
Proof.
  intros env req row.
  split; [reflexivity|].
  refine (@inference_failure_keeps_user_turn env req fresh 7 (lit "Why?")
            (lit "http://rag:8000/chat") _ _ _ _ _ _ _).
  - vm_compute; reflexivity.
  - reflexivity.
  - vm_compute; discriminate.
  - reflexivity.
  - vm_compute; discriminate.
  - reflexivity.
  - reflexivity.
Defined.

End Runs.

(* ================================================================= *)
(** * Further properties of the handlers *)

Section HandlerFacts.

Import JS JSON Codec Ledger Chat Sessions.

Local Open Scope Z_scope.

Variable env : environment.

(** *** How [POST /chat] ends *)

Ltac break_all :=
  repeat match goal with
         | H : _ /\ _ |- _ => destruct H
         | H : exists _, _ |- _ => destruct H
         | H : _ \/ _ |- _ => destruct H
         end.

Ltac crunch :=
  intros; break_all;
  repeat match goal with
         | H : Ok _ = Ok _ |- _ => inversion H; subst; clear H
         end;
  cbn [code payload] in *;
  try reflexivity; try discriminate; try congruence; try tauto.

(** Identify a second description of the request ([Same]) or of the
    service URL ([SameUrl]) with the first one. *)
Ltac same_request Same u0 :=
  repeat match goal with
         | H : ?P ?u ?x |- _ =>
             lazymatch u with u0 => fail | _ => idtac end;
             destruct (Same _ _ H) as [? ?]; subst u x
         end.

Ltac same_url SameUrl a0 :=
  repeat match goal with
         | H : ?P ?a |- _ =>
             lazymatch a with a0 => fail | _ => idtac end;
             pose proof (SameUrl _ H); subst a
         end.

(** X1.  How [POST /chat] ends, for every request, environment and
    storage schedule.  It answers 401 exactly when the request carries no
    identity.  For an identified caller it throws exactly when the body is
    [undefined] or [null] or the question is truthy and not a string, and
    answers 400 exactly when instead the question is missing, falsy or a
    blank string; in these three cases the world is left as it was.  A
    non-blank question is answered 500 "Failed to store message" exactly
    when a storage call of the user's turn fails (table unchanged), 500
    "AI service not configured." exactly when that turn is stored and the
    service URL is missing or empty, 502 exactly when the URL is there and
    the context query or the inference call fails (both with the user's
    row added), and 200 in the remaining case, with the decoded answer;
    the AI row is then added exactly when neither storage call of the AI
    turn fails. *)
Theorem post_chat_outcomes (req : request) (w : world) :
  let out := fst (serve_post env req w) in
  let w' := snd (serve_post env req w) in
  let caller := authenticated (onRequest env req) in
  let unreadable :=
    body req = None \/ body req = Some JNull \/
    exists x, question (body req) = Some x /\ truthy x = true /\
              forall q, x <> JStr q in
  let blank :=
    is_truthy (question (body req)) = false \/
    exists q, question (body req) = Some (JStr q) /\ trim q = [] in
  let asks userId q :=
    caller = Some userId /\ question (body req) = Some (JStr q) /\
    trim q <> [] in
  let convId := conv_or_default (conversationId (body req)) in
  let user_turn_stored := forallb negb (firstn 2 (faults w)) = true in
  let configured aiUrl := AI_SERVICE_URL env = Some aiUrl /\ aiUrl <> [] in
  let context_read := nth 2 (faults w) false = false in
  let inference userId q aiUrl :=
    got_post_text env
      (inference_request env userId q convId aiUrl
         (with_turn (db w) convId userId q User)) in
  (out = Ok (Reply 401 (Message (lit "Authentication required.")))
   <-> caller = None) /\
  (out = Thrown <-> caller <> None /\ unreadable) /\
  (out = Ok (Reply 400 (Message (lit "Question is required.")))
   <-> caller <> None /\ ~ unreadable /\ blank) /\
  (out = Ok (Reply 500 (Failure (lit "Failed to store message")))
   <-> (exists userId q, asks userId q) /\ ~ user_turn_stored) /\
  (out = Ok (Reply 500 (Message (lit "AI service not configured.")))
   <-> (exists userId q, asks userId q) /\ user_turn_stored /\
       forall aiUrl, ~ configured aiUrl) /\
  (out = Ok (Reply 502 (Failure (lit "AI service unavailable")))
   <-> exists userId q aiUrl,
         asks userId q /\ user_turn_stored /\ configured aiUrl /\
         (~ context_read \/ inference userId q aiUrl = None)) /\
  ((exists r, out = Ok r /\ code r = 200)
   <-> exists userId q aiUrl T,
         asks userId q /\ user_turn_stored /\ configured aiUrl /\ context_read /\
         inference userId q aiUrl = Some T) /\
  (caller = None \/ unreadable \/ blank -> w' = w) /\
  (~ user_turn_stored -> db w' = db w) /\
  forall userId q,
    asks userId q -> user_turn_stored ->
    let t1 := with_turn (db w) convId userId q User in
    ((forall r, out = Ok r -> code r <> 200) -> db w' = t1) /\
    forall aiUrl T,
      configured aiUrl -> context_read ->
      inference userId q aiUrl = Some T ->
      out = Ok (Reply 200 (Answer (fst (decode T)) (snd (decode T))
                                  (fst (decode T)) convId)) /\
      db w' = if forallb negb (firstn 2 (skipn 3 (faults w)))
              then with_turn t1 convId userId (fst (decode T)) AI
              else t1.
Proof.
  intros out w' caller unreadable blank asks convId user_turn_stored configured
         context_read inference.
  destruct (post_chat_paths env req w) as (o & w1 & E & C).
  unfold out, w'. rewrite E. cbn [fst snd]. clear E out w'.
  assert (U : forall x, question (body req) = Some x ->
                        body req <> None /\ body req <> Some JNull).
  { intros x Hx. split; intros Hb; rewrite Hb in Hx; discriminate Hx. }
  destruct C as [(Ha & -> & ->) | (userId & Ha & C)].
  { assert (NA : forall u q, ~ asks u q).
    { intros u q (H & _). unfold caller in H. congruence. }
    fold caller in Ha.
    repeat split; crunch; try (exfalso; eapply NA; eassumption). }
  assert (NC : caller <> None) by (unfold caller; rewrite Ha; discriminate).
  destruct C as [(-> & -> & C) | [(-> & -> & Hd & C) | (q & Hq & Ht & C)]].
  - assert (C' : unreadable).
    { unfold unreadable.
      destruct C as [C | C]; [apply destructure_throws in C|]; tauto. }
    assert (NA : forall u q, ~ asks u q).
    { intros u q (_ & H & _). destruct (U _ H) as [U1 U2].
      destruct C' as [C' | [C' | (x & Hx & _ & Sx)]]; try contradiction.
      rewrite Hx in H. inversion H. now elim (Sx q). }
    clear C Ha U.
    repeat split; crunch; try (exfalso; eapply NA; eassumption).
  - assert (NU : ~ unreadable).
    { intros [H | [H | (x & Hx & Tx & Sx)]].
      - apply Hd, destructure_throws. now left.
      - apply Hd, destructure_throws. now right.
      - destruct C as [C | (q & Hq & _)].
        + rewrite Hx in C. cbn in C. congruence.
        + rewrite Hx in Hq. inversion Hq. now elim (Sx q). }
    assert (B : blank) by exact C.
    assert (NA : forall u q, ~ asks u q).
    { intros u q (_ & Hq & Ht). destruct C as [C | (q' & Hq' & Hb)].
      - rewrite Hq in C. cbn in C. destruct q; [now elim Ht | discriminate C].
      - rewrite Hq in Hq'. inversion Hq'; subst q'. contradiction. }
    clear C Ha U Hd.
    repeat split; crunch; try (exfalso; eapply NA; eassumption).
  - assert (NU : ~ unreadable).
    { destruct (U _ Hq) as [U1 U2].
      intros [H | [H | (x & Hx & Tx & Sx)]]; try contradiction.
      rewrite Hx in Hq. inversion Hq. now elim (Sx q). }
    assert (NB : ~ blank).
    { intros [H | (q' & Hq' & Hb)].
      - rewrite Hq in H. cbn in H. destruct q; [now elim Ht | discriminate H].
      - rewrite Hq in Hq'. inversion Hq'; subst q'. contradiction. }
    assert (A : asks userId q) by (unfold asks, caller; tauto).
    assert (Same : forall u' q', asks u' q' -> u' = userId /\ q' = q).
    { intros u' q' (H1 & H2 & _). unfold caller in H1.
      rewrite Ha in H1. rewrite Hq in H2.
      inversion H1. inversion H2. now split. }
    cbv zeta in C. fold convId in C.
    clear U Ha Hq Ht.
    destruct C as [(F1 & -> & Hdb) | (F1 & C)].
    { assert (NS : ~ user_turn_stored) by (unfold user_turn_stored; congruence). clear F1.
      repeat split; intros; break_all; same_request Same userId;
        crunch; eauto. }
    assert (S : user_turn_stored) by exact F1. clear F1.
    destruct C as [(Hu & -> & Hdb) | (aiUrl & Hu & Hne & C)].
    { assert (NCfg : forall a, ~ configured a).
      { intros a (H1 & H2). destruct Hu as [Hu | Hu]; congruence. }
      clear Hu.
      repeat split; intros; break_all; same_request Same userId;
        crunch; eauto;
        try (exfalso; eapply NCfg; eassumption). }
    assert (Cfg : configured aiUrl) by (now split).
    assert (SameUrl : forall a', configured a' -> a' = aiUrl).
    { intros a' (H & _). rewrite Hu in H. now inversion H. }
    clear Hu Hne.
    destruct C as [(F & -> & Hdb) | (T & F2 & Hai & -> & Hdb)].
    + assert (F' : ~ context_read \/ inference userId q aiUrl = None).
      { unfold context_read, inference.
        destruct F as [F | F]; [left; congruence | now right]. }
      clear F.
      repeat split; intros; break_all; same_request Same userId;
        same_url SameUrl aiUrl; crunch; eauto 12;
        try (exfalso;
             match goal with
             | H : forall a, ~ _ |- _ => eapply H; eassumption
             end).
    + unfold context_read in *. fold (inference userId q aiUrl) in Hai.
      repeat split; intros; break_all; same_request Same userId;
        same_url SameUrl aiUrl; crunch; eauto 12;
        try (exfalso;
             match goal with
             | H : forall a, ~ _ |- _ => eapply H; eassumption
             | H : forall r, Ok _ = Ok r -> _ |- _ =>
                 exact (H _ eq_refl eq_refl)
             end);
        match goal with
        | H : inference _ _ _ = Some ?T0 |- _ =>
            rewrite Hai in H; inversion H; subst;
            first [reflexivity | assumption]
        end.
Qed.

Lemma rows_with_turn (t : table) (convId : json) (userId : Z)
    (text : jsstring) (who : Speaker) :
  rows (with_turn t convId userId text who)
  = rows t ++ [turn_row t convId userId text who].
Proof. reflexivity. Qed.

(** X2.  [POST /chat] only ever appends: the old rows stay, in place and
    unchanged, followed by at most two new rows, each owned by the caller
    and filed under the request's conversation (or ["default-session"]). *)
Theorem post_chat_appends_only (req : request) (w : world) :
  exists added,
    rows (db (snd (serve_post env req w))) = rows (db w) ++ added /\
    (List.length added <= 2)%nat /\
    forall m, In m added ->
      authenticated (onRequest env req) = Some (user_id m) /\
      conversation_id m = conv_or_default (conversationId (body req)).
Proof.
  destruct (post_chat_paths env req w) as (o & w' & E & H).
  rewrite E. cbn [snd].
  assert (Zero : exists added,
             rows (db w) = rows (db w) ++ added /\
             (List.length added <= 2)%nat /\
             forall m, In m added ->
               authenticated (onRequest env req) = Some (user_id m) /\
               conversation_id m
               = conv_or_default (conversationId (body req))).
  { exists []. rewrite app_nil_r.
    split; [reflexivity|]. split; [simpl; lia | intros m []]. }
  destruct H as [(_ & _ & ->) | (userId & Ha & H)]; [exact Zero|].
  destruct H as [(_ & -> & _) | [(_ & -> & _) | (q & Hq & Ht & H)]];
    try exact Zero.
  cbv zeta in H.
  set (convId := conv_or_default (conversationId (body req))) in *.
  set (t1 := with_turn (db w) convId userId q User) in *.
  assert (One : exists added,
             rows t1 = rows (db w) ++ added /\
             (List.length added <= 2)%nat /\
             forall m, In m added ->
               authenticated (onRequest env req) = Some (user_id m) /\
               conversation_id m = convId).
  { exists [turn_row (db w) convId userId q User].
    split; [reflexivity|]. split; [simpl; lia|].
    intros m [<- | []]. split; [exact Ha | reflexivity]. }
  destruct H as [(_ & _ & ->) | (_ & H)]; [exact Zero|].
  destruct H as [(_ & _ & ->) | (aiUrl & _ & _ & H)]; [exact One|].
  destruct H as [(_ & _ & ->) | (T & _ & _ & _ & ->)]; [exact One|].
  destruct (forallb negb (firstn 2 (skipn 3 (faults w)))); [|exact One].
  exists [turn_row (db w) convId userId q User;
          turn_row t1 convId userId (fst (decode T)) AI].
  split; [|split; [simpl; lia|]].
  - rewrite rows_with_turn. unfold t1 at 1. rewrite rows_with_turn.
    now rewrite <- app_assoc.
  - intros m [<- | [<- | []]]; (split; [exact Ha | reflexivity]).
Qed.

(** *** [GET /chat] *)

(** Every path of [GET /chat]. *)
Lemma get_chat_paths (req : request) (w : world) :
  exists r w',
    serve_get env req w = (Ok r, w') /\
    db w' = db w /\
    ((authenticated (onRequest env req) = None /\
      r = Reply 401 (Message (lit "Authentication required.")))
     \/
     exists userId,
       authenticated (onRequest env req) = Some userId /\
       ((hd false (faults w) = true /\
         r = Reply 500 (Failure (lit "Failed to fetch messages")))
        \/
        (hd false (faults w) = false /\
         r = Reply 200 (History default_session userId
                          (map format_message
                               (select_asc (sqlite_affinity env) (db w) userId
                                           default_session)))))).
Proof.
  unfold serve_get, get_chat.
  destruct (authenticated (onRequest env req)) as [userId|] eqn:Ha;
    [|eexists _, _; split; [reflexivity|]; split; [reflexivity|];
      left; now split].
  unfold try_catch, bind, db_all_asc.
  match goal with
  | |- context [storage_call ?f ?w1] =>
      destruct (storage_call_cases f w1) as [(F & E) | (F & E)]; rewrite E
  end; cbv beta iota; cbn [fst snd]; unfold ret;
    eexists _, _; (split; [reflexivity|]); (split; [reflexivity|]);
    right; exists userId; (split; [reflexivity|]);
    [left | right]; now split.
Qed.

(** X3.  [GET /chat] never writes and always answers: 401 exactly when
    the request carries no identity; for an identified caller 500 exactly
    when the query throws, and otherwise 200 with the rows the query
    returns, which are the caller's rows of the ["default-session"]
    conversation and no others. *)
Theorem get_chat_outcomes (req : request) (w : world) :
  exists r w',
    serve_get env req w = (Ok r, w') /\
    db w' = db w /\
    (code r = 401 <-> authenticated (onRequest env req) = None) /\
    (code r = 500 <->
     authenticated (onRequest env req) <> None /\ hd false (faults w) = true) /\
    (code r = 200 <->
     authenticated (onRequest env req) <> None /\ hd false (faults w) = false) /\
    (code r = 500 -> payload r = Failure (lit "Failed to fetch messages")) /\
    (code r = 200 ->
     exists userId listed,
       authenticated (onRequest env req) = Some userId /\
       payload r = History default_session userId (map format_message listed) /\
       listed = select_asc (sqlite_affinity env) (db w) userId default_session /\
       forall m, In m listed <->
                 In m (rows (db w)) /\ user_id m = userId /\
                 same_value (sqlite_affinity env (conversation_id m))
                             (sqlite_affinity env default_session) = true).
Proof.
  destruct (get_chat_paths req w) as (r & w' & E & Hd & C).
  exists r, w'. split; [exact E|]. split; [exact Hd|].
  destruct C as [(Ha & ->) | (userId & Ha & [(F & ->) | (F & ->)])]; cbn [code payload].
  - rewrite Ha. repeat split; try tauto; try discriminate;
      intros [H _]; now elim H.
  - rewrite Ha, F. repeat split; try tauto; try discriminate.
    intros [_ H]; discriminate H.
  - rewrite Ha, F. repeat split; try tauto; try discriminate.
    + intros [_ H]; discriminate H.
    + intros _. eexists _, _. split; [reflexivity|].
      split; [reflexivity|]. split; [reflexivity|].
      intros m. unfold select_asc. rewrite In_order_by, filter_In.
      unfold in_scope. rewrite andb_true_iff, Z.eqb_eq. tauto.
Qed.

(** *** Ordering *)

Section Ordering.

Variable le : Z -> Z -> bool.
Variable R : Z -> Z -> Prop.
Hypothesis le_true : forall x y, le x y = true -> R x y.
Hypothesis le_false : forall x y, le x y = false -> R y x.
Hypothesis R_trans : forall x y z, R x y -> R y z -> R x z.

Let Rm (a b : message) : Prop := R (message_index a) (message_index b).

Lemma place_permutation (m : message) (l : list message) :
  Permutation (place le m l) (m :: l).
Proof.
  induction l as [|y l IH]; simpl; [reflexivity|].
  destruct (le (message_index m) (message_index y)); [reflexivity|].
  rewrite IH. apply perm_swap.
Qed.

Lemma order_by_permutation (l : list message) : Permutation (order_by le l) l.
Proof.
  induction l as [|m l IH]; simpl; [reflexivity|].
  now rewrite place_permutation, IH.
Qed.

Lemma place_sorted (m : message) (l : list message) :
  StronglySorted Rm l -> StronglySorted Rm (place le m l).
Proof.
  induction 1 as [|y l Hs IH Hy]; simpl.
  - repeat constructor.
  - destruct (le (message_index m) (message_index y)) eqn:E.
    + apply le_true in E. constructor; [now constructor|].
      constructor; [exact E|].
      eapply Forall_impl; [|exact Hy]. intros z Hz. exact (R_trans E Hz).
    + apply le_false in E. constructor; [exact IH|].
      eapply Permutation_Forall;
        [symmetry; apply place_permutation|].
      now constructor.
Qed.

Lemma order_by_sorted (l : list message) : StronglySorted Rm (order_by le l).
Proof.
  induction l as [|m l IH]; simpl; [constructor | now apply place_sorted].
Qed.

(** When the last row's index is beyond every other under [le], ordering
    puts it first. *)
Lemma order_by_last_first (l : list message) (x : message) :
  (forall y, In y l -> le (message_index y) (message_index x) = false) ->
  order_by le (l ++ [x]) = x :: order_by le l.
Proof.
  induction l as [|y l IH]; intros H; simpl; [reflexivity|].
  rewrite IH by (intros z Hz; apply H; now right).
  simpl. now rewrite (H y (or_introl eq_refl)).
Qed.

End Ordering.

Lemma sorted_app_cross {A} (R : A -> A -> Prop) (a b : list A) :
  StronglySorted R (a ++ b) ->
  forall x y, In x a -> In y b -> R x y.
Proof.
  induction a as [|z a IH]; intros H x y Hx Hy; [contradiction|].
  simpl in H. apply StronglySorted_inv in H as [Hs Hz].
  destruct Hx as [<- | Hx].
  - rewrite Forall_forall in Hz. apply Hz. apply in_or_app. now right.
  - now apply IH.
Qed.

Lemma sorted_rev {A} (R : A -> A -> Prop) (l : list A) :
  StronglySorted R l -> StronglySorted (fun a b => R b a) (rev l).
Proof.
  induction 1 as [|x l Hs IH Hx]; simpl; [constructor|].
  assert (G : forall l1 : list A,
             StronglySorted (fun a b => R b a) l1 ->
             Forall (fun a => R x a) l1 ->
             StronglySorted (fun a b => R b a) (l1 ++ [x])).
  { induction 1 as [|y l1 Hs1 IH1 Hy1]; intros Hf; simpl.
    - repeat constructor.
    - inversion Hf; subst. constructor; [now apply IH1|].
      apply Forall_app. split; [exact Hy1 | now repeat constructor]. }
  apply G; [exact IH|]. now apply Forall_rev.
Qed.

Lemma In_firstn {A} (n : nat) (l : list A) (y : A) :
  In y (firstn n l) -> In y l.
Proof.
  revert n. induction l as [|x l IH]; intros [|n]; simpl; try contradiction.
  intros [-> | H]; [now left | right; eauto].
Qed.

Lemma sorted_firstn {A} (R : A -> A -> Prop) (n : nat) (l : list A) :
  StronglySorted R l -> StronglySorted R (firstn n l).
Proof.
  revert n. induction l as [|x l IH]; intros n H;
    [now rewrite firstn_nil|].
  destruct n; [constructor|]. simpl.
  apply StronglySorted_inv in H as [Hs Hx].
  constructor; [now apply IH|].
  rewrite Forall_forall in *. intros y Hy. apply Hx.
  exact (In_firstn _ _ _ Hy).
Qed.


Lemma sorted_map {A B} (f : A -> B) (R : B -> B -> Prop) (l : list A) :
  StronglySorted (fun a b => R (f a) (f b)) l -> StronglySorted R (map f l).
Proof.
  induction 1 as [|x l Hs IH Hx]; simpl; constructor; [exact IH|].
  rewrite Forall_map. exact Hx.
Qed.

Lemma order_by_length (le : Z -> Z -> bool) (l : list message) :
  List.length (order_by le l) = List.length l.
Proof. apply Permutation_length, order_by_permutation. Qed.

Lemma leb_false_le (x y : Z) : (x <=? y) = false -> y <= x.
Proof. intros H. apply Z.leb_gt in H. lia. Qed.

Lemma geb_true_le (x y : Z) : (x >=? y) = true -> y <= x.
Proof. rewrite Z.geb_leb. apply Z.leb_le. Qed.

Lemma geb_false_le (x y : Z) : (x >=? y) = false -> x <= y.
Proof. rewrite Z.geb_leb. intros H. apply Z.leb_gt in H. lia. Qed.

(** X4.  A 200 reply of [GET /chat] lists the caller's ["default-session"]
    rows, each exactly once, in ascending index order. *)
Theorem history_lists_default_rows (req : request) (w w' : world)
    (c : json) (u : Z) (msgs : list formatted_message) :
  serve_get env req w = (Ok (Reply 200 (History c u msgs)), w') ->
  c = default_session /\
  authenticated (onRequest env req) = Some u /\
  Permutation msgs
    (map format_message
         (filter (in_scope (sqlite_affinity env) u default_session)
                 (rows (db w)))) /\
  StronglySorted (fun a b => index a <= index b) msgs.
Proof.
  intros E. destruct (get_chat_paths req w) as (r & w1 & E1 & _ & H).
  rewrite E in E1. inversion E1; subst r w1. clear E1.
  destruct H as [(_ & H) | (userId & Ha & [(_ & H) | (_ & H)])];
    try discriminate H.
  inversion H; subst. repeat split; [exact Ha | |].
  - apply Permutation_map. unfold select_asc. apply order_by_permutation.
  - apply sorted_map. unfold select_asc.
    apply (@order_by_sorted Z.leb Z.le).
    + intros x y. apply Z.leb_le.
    + apply leb_false_le.
    + intros x y z. apply Z.le_trans.
Qed.

(** *** The context window *)

(** X5.  The context sent to the inference service is built from at most
    eight rows of the request's (user, conversation) scope, oldest first
    (ascending index), and they are the most recent ones: every row of the
    scope left out has an index no larger than any row taken. *)
Theorem context_window_recent (t : table) (u : Z) (c : json)
    (q url : jsstring) :
  let scope := in_scope (sqlite_affinity env) u c in
  let win := context_window (sqlite_affinity env) t u c in
  messageContext (inference_request env u q c url t)
  = map (fun msg => (role_of (speaker msg), content msg)) win /\
  List.length win
  = Nat.min 8 (List.length (filter scope (rows t))) /\
  StronglySorted (fun a b => message_index a <= message_index b) win /\
  (forall m, In m win -> In m (rows t) /\ scope m = true) /\
  (forall m m', In m win -> In m' (rows t) -> scope m' = true ->
                ~ In m' win -> message_index m' <= message_index m).
Proof.
  intros scope win. unfold win, scope, context_window, select_last8.
  set (L := order_by Z.geb
              (filter (in_scope (sqlite_affinity env) u c) (rows t))).
  assert (SL : StronglySorted
                 (fun a b => message_index b <= message_index a) L).
  { apply (@order_by_sorted Z.geb (fun x y => y <= x)).
    - apply geb_true_le.
    - apply geb_false_le.
    - intros x y z H1 H2. lia. }
  split; [reflexivity|]. split; [|split; [|split]].
  - rewrite length_rev, length_firstn. unfold L. now rewrite order_by_length.
  - apply (sorted_rev (R := fun a b => message_index b <= message_index a)).
    now apply sorted_firstn.
  - intros m Hm. apply in_rev, In_firstn in Hm.
    apply (Permutation_in _ (order_by_permutation Z.geb _)) in Hm.
    now apply filter_In in Hm.
  - intros m m' Hm Hm' Hs Hn. apply in_rev in Hm.
    assert (HL : In m' L).
    { apply (Permutation_in _ (Permutation_sym (order_by_permutation Z.geb _))).
      apply filter_In. now split. }
    rewrite <- (firstn_skipn 8 L) in HL, SL.
    apply in_app_or in HL as [HL | HL];
      [elim Hn; now apply in_rev in HL|].
    exact (@sorted_app_cross _ _ _ _ SL m m' Hm HL).
Qed.


(** *** Dense numbering *)

Lemma zseq_snoc (a : Z) (n : nat) :
  zseq a n ++ [a + Z.of_nat n] = zseq a (S n).
Proof.
  revert a. induction n as [|n IH]; intros a.
  - simpl. now rewrite Z.add_0_r.
  - change (a :: (zseq (a + 1) n ++ [a + Z.of_nat (S n)])
            = a :: zseq (a + 1) (S n)).
    f_equal. rewrite <- IH. do 2 f_equal. lia.
Qed.

Lemma zseq_bounds (a : Z) (n : nat) (x : Z) :
  In x (zseq a n) -> a <= x < a + Z.of_nat n.
Proof.
  revert a. induction n as [|n IH]; intros a; [contradiction|].
  intros [<- | H]; [lia|]. apply IH in H. lia.
Qed.

Lemma zseq_NoDup (a : Z) (n : nat) : NoDup (zseq a n).
Proof.
  revert a. induction n as [|n IH]; intros a; constructor; [|apply IH].
  intros H. apply zseq_bounds in H. lia.
Qed.

Lemma dense_empty : dense_indices empty.
Proof. intros u. reflexivity. Qed.

Lemma dense_with_turn (t : table) (convId : json) (userId : Z)
    (text : jsstring) (who : Speaker) :
  dense_indices t -> dense_indices (with_turn t convId userId text who).
Proof.
  intros H u. unfold with_turn. rewrite filter_user_insert.
  unfold insert. cbn [rows]. rewrite filter_app, List.length_app.
  cbn [filter]. unfold of_user at 3. cbn [user_id].
  destruct (userId =? u) eqn:E.
  - apply Z.eqb_eq in E. subst u. rewrite H. cbn [List.length].
    rewrite Nat.add_1_r, <- zseq_snoc. do 2 f_equal.
    unfold count_by_user. lia.
  - cbn [List.length]. now rewrite app_nil_r, Nat.add_0_r.
Qed.

(** In a densely numbered table no index exceeds its owner's row count. *)
Lemma dense_bound (t : table) (m : message) :
  dense_indices t -> In m (rows t) ->
  1 <= message_index m <= count_by_user t (user_id m).
Proof.
  intros H Hm. specialize (H (user_id m)).
  assert (Hi : In (message_index m)
                  (map message_index (filter (of_user (user_id m)) (rows t)))).
  { apply in_map, filter_In. split; [exact Hm|].
    unfold of_user. apply Z.eqb_refl. }
  rewrite H in Hi. apply zseq_bounds in Hi. unfold count_by_user. lia.
Qed.

Lemma serve_keeps_dense (r : http_request) (w : world) :
  dense_indices (db w) -> dense_indices (db (snd (serve env r w))).
Proof.
  intros H. destruct r as [req | req]; cbn [serve].
  - destruct (post_chat_paths env req w) as (o & w' & E & C).
    rewrite E. cbn [snd].
    destruct C as [(_ & _ & ->) | (userId & _ & C)]; [exact H|].
    destruct C as [(_ & -> & _) | [(_ & -> & _) | (q & _ & _ & C)]];
      try exact H.
    cbv zeta in C.
    destruct C as [(_ & _ & ->) | (_ & C)]; [exact H|].
    destruct C as [(_ & _ & ->) | (aiUrl & _ & _ & C)];
      [now apply dense_with_turn|].
    destruct C as [(_ & _ & ->) | (T & _ & _ & _ & ->)];
      [now apply dense_with_turn|].
    destruct (forallb negb (firstn 2 (skipn 3 (faults w))));
      repeat apply dense_with_turn; exact H.
  - destruct (get_chat_paths req w) as (r & w' & E & Hdb & _).
    rewrite E. cbn [snd]. now rewrite Hdb.
Qed.

(** X6.  Starting from the empty table, after any sequence of [POST /chat]
    and [GET /chat] requests, whatever the storage failures and the
    inference replies, every user's rows are numbered 1, 2, ..., n in
    insertion order: no index is repeated or skipped for a user. *)
Theorem numbering_stays_dense (rs : list http_request) (schedule : list bool)
    (u : Z) :
  let t := db (serve_all env rs {| db := empty; faults := schedule |}) in
  map message_index (filter (of_user u) (rows t))
  = zseq 1 (List.length (filter (of_user u) (rows t))) /\
  NoDup (map message_index (filter (of_user u) (rows t))).
Proof.
  intros t.
  assert (G : forall rs w, dense_indices (db w) ->
                           dense_indices (db (serve_all env rs w))).
  { clear. intros rs. induction rs as [|r rs IH]; intros w H; [exact H|].
    cbn [serve_all]. apply IH. now apply serve_keeps_dense. }
  assert (D : dense_indices t) by (apply G; exact dense_empty).
  split; [apply D|]. rewrite (D u). apply zseq_NoDup.
Qed.

(** X7.  In a densely numbered table, the context sent to the inference
    service ends with the question just asked: the user's new row is the
    newest of its scope, so it is the last entry of the window. *)
Theorem context_ends_with_question (t : table) (u : Z) (c : json)
    (q url : jsstring) :
  dense_indices t ->
  let t1 := with_turn t c u q User in
  exists older,
    context_window (sqlite_affinity env) t1 u c
    = older ++ [turn_row t c u q User] /\
    messageContext (inference_request env u q c url t1)
    = map (fun msg => (role_of (speaker msg), content msg)) older
      ++ [(user, q)].
Proof.
  intros D t1.
  set (scope := filter (in_scope (sqlite_affinity env) u c) (rows t)).
  set (x := turn_row t c u q User).
  assert (Hx : in_scope (sqlite_affinity env) u c x = true).
  { unfold in_scope, x, turn_row. cbn [user_id conversation_id].
    now rewrite Z.eqb_refl, same_stored_refl. }
  assert (E : select_last8 (sqlite_affinity env) t1 u c
              = x :: firstn 7 (order_by Z.geb scope)).
  { unfold select_last8, t1. rewrite rows_with_turn, filter_app.
    cbn [filter]. fold x. rewrite Hx. fold scope.
    rewrite order_by_last_first; [reflexivity|].
    intros y Hy. apply filter_In in Hy as [Hy Hs].
    unfold in_scope in Hs. apply andb_true_iff in Hs as [Hu _].
    apply Z.eqb_eq in Hu. pose proof (dense_bound y D Hy) as B.
    rewrite Hu in B. unfold x, turn_row. cbn [message_index].
    rewrite Z.geb_leb. apply Z.leb_gt. lia. }
  exists (rev (firstn 7 (order_by Z.geb scope))). split.
  - unfold context_window. rewrite E. reflexivity.
  - unfold inference_request. cbn [messageContext]. rewrite E.
    cbn [rev]. rewrite map_app. reflexivity.
Qed.


(** *** Single paths of [POST /chat] *)

Lemma append_turn_unhealthy (convId : json) (userId : Z) (text : jsstring)
    (who : Speaker) (w : world) :
  forallb negb (firstn 2 (faults w)) = false ->
  exists fs, append_turn convId userId text who w
             = (Thrown, {| db := db w; faults := fs |}).
Proof.
  intros H. unfold append_turn, bind, db_get_count, db_run_insert, storage_call.
  destruct (faults w) as [|[|] [|[|] fs]]; cbn in H; try discriminate H;
    cbn; eexists; reflexivity.
Qed.

Lemma later_fault (w : world) :
  healthy 3 w -> ~ healthy 5 w ->
  forallb negb (firstn 2 (tl (tl (tl (faults w))))) = false.
Proof.
  unfold healthy.
  destruct (faults w) as [|[|] [|[|] [|[|] [|[|] [|[|] fs]]]]];
    cbn; intros H3 H5; try discriminate H3; try reflexivity;
    now elim H5.
Qed.

(** Unfold [POST /chat] up to the write of the user's turn. *)
Ltac enter_post_chat Ha Hq Ht :=
  unfold serve_post, post_chat; rewrite Ha, (destructure_question _ Hq);
  match type of Hq with
  | _ = Some (JStr ?q) => destruct q as [|?c ?q']; [now elim Ht|]
  end;
  cbn [is_truthy truthy negb];
  match goal with
  | |- context [match trim ?x with [] => _ | _ :: _ => _ end] =>
      destruct (trim x) eqn:?; [now elim Ht|]
  end;
  unfold bind at 1; unfold try_catch at 1; unfold bind at 1.

(** X8.  When the write of the user's turn fails (the count or the insert
    throws), [POST /chat] answers 500 "Failed to store message" and the
    table is left as it was, whatever the inference service would have
    answered. *)
Theorem user_turn_write_failure (req : request) (w : world) (userId : Z)
    (q : jsstring) :
  authenticated (onRequest env req) = Some userId ->
  question (body req) = Some (JStr q) ->
  trim q <> [] ->
  ~ healthy 2 w ->
  exists w',
    serve_post env req w
    = (Ok (Reply 500 (Failure (lit "Failed to store message"))), w') /\
    db w' = db w.
Proof.
  intros Ha Hq Ht Hf.
  assert (F : forallb negb (firstn 2 (faults w)) = false).
  { unfold healthy in Hf. now destruct (forallb negb (firstn 2 (faults w))). }
  destruct (append_turn_unhealthy
              (conv_or_default (conversationId (body req))) userId q User w F)
    as [fs E].
  enter_post_chat Ha Hq Ht. rewrite E. cbv beta iota.
  eexists. split; reflexivity.
Qed.

(** X9.  The service URL is checked after the user's turn is written:
    when it is missing or empty, [POST /chat] answers 500 "AI service not
    configured." and the user's row stays in the table. *)
Theorem unconfigured_service_keeps_user_turn (req : request) (w : world)
    (userId : Z) (q : jsstring) :
  authenticated (onRequest env req) = Some userId ->
  question (body req) = Some (JStr q) ->
  trim q <> [] ->
  healthy 2 w ->
  AI_SERVICE_URL env = None \/ AI_SERVICE_URL env = Some [] ->
  let convId := conv_or_default (conversationId (body req)) in
  exists w',
    serve_post env req w
    = (Ok (Reply 500 (Message (lit "AI service not configured."))), w') /\
    rows (db w') = rows (db w) ++ [turn_row (db w) convId userId q User].
Proof.
  intros Ha Hq Ht Hh Hu convId.
  destruct (append_turn_healthy convId userId q User Hh) as [E1 _].
  enter_post_chat Ha Hq Ht. fold convId. rewrite E1.
  unfold ret at 1. cbv beta iota.
  destruct Hu as [-> | ->]; eexists; split; reflexivity.
Qed.

(** X10.  A failure while writing the AI turn is swallowed: the client
    still gets 200 with the decoded answer, and the table holds the user's
    row only. *)
Theorem ai_turn_write_failure_is_swallowed (req : request) (w : world)
    (userId : Z) (q aiUrl T : jsstring) :
  authenticated (onRequest env req) = Some userId ->
  question (body req) = Some (JStr q) ->
  trim q <> [] ->
  AI_SERVICE_URL env = Some aiUrl ->
  aiUrl <> [] ->
  healthy 3 w ->
  ~ healthy 5 w ->
  let convId := conv_or_default (conversationId (body req)) in
  let t1 := with_turn (db w) convId userId q User in
  got_post_text env (inference_request env userId q convId aiUrl t1) = Some T ->
  exists w',
    serve_post env req w
    = (Ok (Reply 200 (Answer (fst (decode T)) (snd (decode T))
                             (fst (decode T)) convId)), w') /\
    db w' = t1.
Proof.
  intros Ha Hq Ht Hu Hne H3 H5 convId t1 Hai.
  pose proof (later_fault H3 H5) as F.
  destruct (append_turn_healthy convId userId q User H3) as [E1 H1].
  set (w1 := {| db := insert (db w) convId userId q User
                             (count_by_user (db w) userId + 1);
                faults := tl (tl (faults w)) |}) in *.
  destruct (storage_call_healthy
              (fun t => (select_last8 (sqlite_affinity env) t userId convId, t))
              H1) as [E2 _].
  cbn [fst snd] in E2.
  enter_post_chat Ha Hq Ht. fold convId. rewrite E1.
  unfold ret at 1. cbv beta iota. rewrite Hu.
  destruct aiUrl as [|c1 url]; [now elim Hne|].
  unfold try_catch at 1. unfold bind at 1. unfold db_all_last8.
  rewrite E2. cbv beta iota. unfold bind at 1. unfold got_post.
  unfold inference_request, t1, with_turn in Hai. cbn [db w1].
  rewrite Hai. cbv beta iota.
  destruct (decode T) as [parsedAnswer sources].
  unfold bind at 1. unfold try_catch at 1. unfold bind at 1.
  match goal with
  | |- context [append_turn ?c' ?u' ?x' ?s' ?w3] =>
      destruct (append_turn_unhealthy c' u' x' s' w3) as [fs E3];
      [exact F | rewrite E3]
  end.
  cbv beta iota. unfold ret. eexists. split; reflexivity.
Qed.

(** X11.  With storage working and an answer from the inference service,
    [POST /chat] answers 200 and appends exactly two rows, the question
    and then the decoded answer it returns, with consecutive indices. *)
Theorem successful_exchange (req : request) (w : world)
    (userId : Z) (q aiUrl T : jsstring) :
  authenticated (onRequest env req) = Some userId ->
  question (body req) = Some (JStr q) ->
  trim q <> [] ->
  AI_SERVICE_URL env = Some aiUrl ->
  aiUrl <> [] ->
  healthy 5 w ->
  let convId := conv_or_default (conversationId (body req)) in
  let t1 := with_turn (db w) convId userId q User in
  let asked := turn_row (db w) convId userId q User in
  let answered := turn_row t1 convId userId (fst (decode T)) AI in
  got_post_text env (inference_request env userId q convId aiUrl t1) = Some T ->
  exists w',
    serve_post env req w
    = (Ok (Reply 200 (Answer (fst (decode T)) (snd (decode T))
                             (fst (decode T)) convId)), w') /\
    rows (db w') = rows (db w) ++ [asked; answered] /\
    message_index answered = message_index asked + 1.
Proof.
  intros Ha Hq Ht Hu Hne H5 convId t1 asked answered Hai.
  destruct (append_turn_healthy convId userId q User H5) as [E1 H1].
  set (w1 := {| db := insert (db w) convId userId q User
                             (count_by_user (db w) userId + 1);
                faults := tl (tl (faults w)) |}) in *.
  destruct (storage_call_healthy
              (fun t => (select_last8 (sqlite_affinity env) t userId convId, t))
              H1) as [E2 H2].
  cbn [fst snd] in E2, H2.
  set (w2 := {| db := db w1; faults := tl (faults w1) |}) in *.
  destruct (append_turn_healthy convId userId (fst (decode T)) AI H2)
    as [E3 _].
  enter_post_chat Ha Hq Ht. fold convId. rewrite E1.
  unfold ret at 1. cbv beta iota. rewrite Hu.
  destruct aiUrl as [|c1 url]; [now elim Hne|].
  unfold try_catch at 1. unfold bind at 1. unfold db_all_last8.
  rewrite E2. cbv beta iota. unfold bind at 1. unfold got_post.
  unfold inference_request, t1, with_turn in Hai. cbn [db w1].
  rewrite Hai. cbv beta iota.
  destruct (decode T) as [parsedAnswer sources] eqn:Ed.
  cbn [fst snd] in *.
  unfold bind at 1. unfold try_catch at 1. unfold bind at 1.
  fold w2. rewrite E3. cbv beta iota. unfold ret.
  eexists. split; [reflexivity|]. split.
  - cbn [db w2 w1]. unfold insert at 1. cbn [rows].
    unfold insert at 1. cbn [rows]. rewrite <- app_assoc. reflexivity.
  - unfold answered, asked, turn_row, t1, with_turn. cbn [message_index].
    rewrite count_by_user_insert, Z.eqb_refl. lia.
Qed.

(** *** Which token the hook reads *)

(** X12.  An [Authorization] header that starts with ["Bearer "] decides
    alone: when its token is empty or fails verification the request is
    answered 401 on both routes, even if the cookie carries a token that
    verifies.  A header without that exact prefix is ignored and the
    cookie decides. *)
Theorem bearer_header_takes_precedence (t h : jsstring)
    (cookie : option jsstring) (b : chat_body) (w : world) :
  (t = [] \/ jwt_verify env t = None ->
   let req := {| authorization := Some (lit "Bearer " ++ t);
                 cookie_token := cookie; body := b |} in
   serve_post env req w
   = (Ok (Reply 401 (Message (lit "Authentication required."))), w) /\
   serve_get env req w
   = (Ok (Reply 401 (Message (lit "Authentication required."))), w)) /\
  (startsWith h (lit "Bearer ") = false ->
   onRequest env {| authorization := Some h; cookie_token := cookie;
                    body := b |}
   = onRequest env {| authorization := None; cookie_token := cookie;
                      body := b |}).
Proof.
  split.
  - intros H req.
    assert (A : authenticated (onRequest env req) = None).
    { unfold onRequest, token, req. cbn [authorization cookie_token].
      rewrite startsWith_app, replace_first_prefix.
      destruct t as [|c t']; [reflexivity|].
      destruct H as [H | H]; [discriminate H | now rewrite H]. }
    unfold serve_post, serve_get, post_chat, get_chat. rewrite A.
    split; reflexivity.
  - intros H. unfold onRequest, token. cbn [authorization cookie_token].
    now rewrite H.
Qed.

End HandlerFacts.

(* ================================================================= *)
(** * Further properties of the decoders *)

Section DecoderFacts.

Import JS JSON Codec.

Local Open Scope Z_scope.

(** X13.  Server decoder, block in order: when the first start sentinel
    ends before the first end sentinel begins, the input splits as
    [pre ++ START ++ payload ++ END ++ post], the answer is [pre ++ post]
    trimmed, and the sources are read from [payload] alone; they are empty
    when [JSON.parse] rejects the rewritten payload. *)
Theorem server_decode_of_block (s : jsstring) :
  indexOf s METADATA_START <> -1 ->
  indexOf s METADATA_END <> -1 ->
  indexOf s METADATA_START + 15 <= indexOf s METADATA_END ->
  exists pre payload post,
    s = pre ++ METADATA_START ++ payload ++ METADATA_END ++ post /\
    fst (decode s) = trim (pre ++ post) /\
    snd (decode s) = match read_sources payload with
                     | Some v => v
                     | None => JArr []
                     end /\
    (parse (jsonStr_fixed payload) = None -> snd (decode s) = JArr []).
Proof.
  intros Hi Hj Hij.
  destruct (decode_block s Hi Hj Hij) as (pre & payload & post & Hs & _ & _ & Hd).
  exists pre, payload, post. rewrite Hd. cbn [fst snd].
  repeat split; [exact Hs|].
  intros Hp. unfold read_sources. now rewrite Hp.
Qed.

Lemma trim_ends (s : jsstring) :
  match trim s with [] => True | c :: _ => is_space c = false end /\
  match rev (trim s) with [] => True | c :: _ => is_space c = false end.
Proof.
  unfold trim, drop_while_end.
  set (u := drop_while is_space s).
  assert (Hu : match u with [] => True | c :: _ => is_space c = false end)
    by apply drop_while_head.
  set (v := drop_while is_space (rev u)).
  assert (Hv : match v with [] => True | c :: _ => is_space c = false end)
    by apply drop_while_head.
  split; [|now rewrite rev_involutive].
  destruct u as [|c u']; [subst v; exact I|].
  subst v. simpl rev at 2.
  assert (G : forall l, exists l', drop_while is_space (l ++ [c]) = l' ++ [c]).
  { induction l as [|x l IH]; simpl.
    - rewrite Hu. now exists [].
    - destruct (is_space x); [exact IH | now exists (x :: l)]. }
  destruct (G (rev u')) as [l' ->].
  rewrite rev_app_distr. simpl. exact Hu.
Qed.

Lemma trim_idempotent (s : jsstring) : trim (trim s) = trim s.
Proof.
  destruct (trim_ends s) as [H1 H2].
  unfold trim at 1. unfold drop_while_end.
  rewrite (drop_while_stuck _ _ H1), (drop_while_stuck _ _ H2).
  apply rev_involutive.
Qed.

(** The answer of the client is [trim] of the text it kept. *)
Lemma parseRAGResponse_answer (raw : jsstring) :
  exists kept, answer (parseRAGResponse raw) = trim kept.
Proof.
  unfold parseRAGResponse.
  destruct (if negb (indexOf raw METADATA_START =? -1)
               && negb (indexOf raw METADATA_END =? -1)
            then read_metadata raw (indexOf raw METADATA_START)
                               (indexOf raw METADATA_END)
            else (JArr [], JStr [], raw)) as [[so co] kept].
  exists kept. cbn [answer]. apply trim_has_no_outer_newlines.
Qed.

(** X14.  Whatever the input, the answer [parseRAGResponse] returns has no
    white space at either end (trimming it again changes nothing): the two
    newline-stripping replacements after [trim] never find anything to
    remove. *)
Theorem client_answer_is_trimmed (raw : jsstring) :
  let a := answer (parseRAGResponse raw) in
  trim a = a /\
  (forall c rest, a = c :: rest -> is_space c = false) /\
  (forall c front, a = front ++ [c] -> is_space c = false).
Proof.
  intros a. destruct (parseRAGResponse_answer raw) as [kept E].
  unfold a. rewrite E. split; [apply trim_idempotent|].
  destruct (trim_ends kept) as [H1 H2]. split.
  - intros c rest Hc. now rewrite Hc in H1.
  - intros c front Hc. rewrite Hc, rev_app_distr in H2. exact H2.
Qed.

Lemma slice_as_substring (s : jsstring) (i : Z) :
  0 <= i -> slice s 0 i = substring s 0 i.
Proof.
  intros H. unfold slice, substring. pose proof (length_nonneg s).
  destruct (Z.ltb_spec 0 0); [lia|]. destruct (Z.ltb_spec i 0); [lia|].
  f_equal; lia.
Qed.

Lemma slice_from_as_substring (s : jsstring) (k : Z) :
  0 <= k -> slice_from s k = substring_from s k.
Proof.
  intros H. unfold slice_from, substring_from, slice, substring.
  pose proof (length_nonneg s).
  destruct (Z.ltb_spec k 0); [lia|].
  destruct (Z.ltb_spec (length s) 0); [lia|].
  f_equal; lia.
Qed.

(** X15.  The two decoders agree whenever both sentinels occur and the
    payload parses to a value other than [null]: [formatRAGResponse] of
    the client's result is the server's pair, answer and sources alike. *)
Theorem decoders_agree_on_parsed_payload (s : jsstring) (v : json) :
  indexOf s METADATA_START <> -1 ->
  indexOf s METADATA_END <> -1 ->
  read_sources (slice s (indexOf s METADATA_START + 15)
                        (indexOf s METADATA_END)) = Some v ->
  formatRAGResponse (parseRAGResponse s) = decode s /\
  snd (decode s) = v.
Proof.
  intros Hi Hj Hr.
  assert (Bi : 0 <= indexOf s METADATA_START)
    by (destruct (indexOf_range s METADATA_START); [contradiction | lia]).
  assert (Bj : 0 <= indexOf s METADATA_END)
    by (destruct (indexOf_range s METADATA_END); [contradiction | lia]).
  unfold formatRAGResponse, parseRAGResponse, decode.
  destruct (indexOf s METADATA_START =? -1) eqn:Ei;
    [apply Z.eqb_eq in Ei; contradiction|].
  destruct (indexOf s METADATA_END =? -1) eqn:Ej;
    [apply Z.eqb_eq in Ej; contradiction|].
  cbn [negb andb]. rewrite Hr. unfold read_metadata.
  unfold read_sources in Hr.
  destruct (parse (jsonStr_fixed
                     (slice s (indexOf s METADATA_START + 15)
                            (indexOf s METADATA_END))))
    as [metadata|]; [|discriminate].
  destruct metadata; cbn [get] in *; inversion Hr; subst; cbn [answer sources];
    rewrite trim_has_no_outer_newlines, slice_as_substring,
      slice_from_as_substring by lia;
    split; reflexivity.
Qed.

Lemma or_else_truthy (x : option json) (d : json) :
  truthy d = true -> truthy (or_else x d) = true.
Proof.
  intros H. destruct x as [v|]; [|exact H]. unfold or_else.
  destruct (truthy v) eqn:E; [exact E | exact H].
Qed.

(** X16.  Neither decoder ever returns a falsy [sources] value: [null],
    [false], zero or the empty string in the payload are all replaced by
    the empty array. *)
Theorem sources_are_never_falsy (s : jsstring) :
  truthy (snd (decode s)) = true /\
  truthy (sources (parseRAGResponse s)) = true.
Proof.
  split.
  - unfold decode.
    destruct (negb (indexOf s METADATA_START =? -1)
              && negb (indexOf s METADATA_END =? -1)); [|reflexivity].
    cbn [snd]. unfold read_sources.
    destruct (parse _) as [metadata|]; [|reflexivity].
    destruct (get metadata (lit "sources")); [|reflexivity].
    now apply or_else_truthy.
  - unfold parseRAGResponse.
    destruct (negb (indexOf s METADATA_START =? -1)
              && negb (indexOf s METADATA_END =? -1)); [|reflexivity].
    unfold read_metadata.
    destruct (parse _) as [metadata|]; [|reflexivity].
    destruct (get metadata (lit "sources")); [|reflexivity].
    destruct (get metadata (lit "context")); cbn [sources];
      now apply or_else_truthy.
Qed.

(** X17.  On a text from which a sentinel is missing the client returns
    the trimmed text, no sources and an empty context; so a reply the
    server passed through unchanged is displayed trimmed. *)
Theorem client_on_plain_text (s : jsstring) :
  indexOf s METADATA_START = -1 \/ indexOf s METADATA_END = -1 ->
  answer (parseRAGResponse s) = trim s /\
  sources (parseRAGResponse s) = JArr [] /\
  context (parseRAGResponse s) = JStr [] /\
  answer (parseRAGResponse (fst (decode s))) = trim s.
Proof.
  intros H.
  destruct (parseRAGResponse_without_sentinel s H) as [E1 E2].
  rewrite (decode_without_sentinel s H). cbn [fst].
  repeat split; try assumption.
  unfold parseRAGResponse.
  assert (E : negb (indexOf s METADATA_START =? -1)
              && negb (indexOf s METADATA_END =? -1) = false).
  { destruct H as [H | H]; rewrite H; cbn [Z.eqb negb andb];
      [reflexivity | apply andb_false_r]. }
  now rewrite E.
Qed.

(** Code units produced by a replacement come from the text or from the
    replacement string. *)
Lemma replace_all_aux_Forall (P : N -> Prop) (p r : jsstring) (s : jsstring) :
  Forall P r -> Forall P s ->
  forall k, Forall P (replace_all_aux p r k s).
Proof.
  intros Hr. induction 1 as [|c s Hc Hs IH]; intros k; simpl; [constructor|].
  destruct k; [|apply IH].
  destruct (startsWith (c :: s) p).
  - apply Forall_app. split; [exact Hr | apply IH].
  - constructor; [exact Hc | apply IH].
Qed.

Lemma replace_apostrophes (s : jsstring) :
  Forall (fun c => c <> 39%N) (replace_all s (lit "'") [quote]).
Proof.
  unfold replace_all. induction s as [|c s IH]; [constructor|].
  cbn [replace_all_aux].
  change (startsWith (c :: s) (lit "'")) with ((39 =? c)%N && true).
  change (Nat.pred (List.length (lit "'"))) with O.
  rewrite andb_true_r. destruct (N.eqb_spec 39 c) as [E | E].
  - constructor; [discriminate | exact IH].
  - constructor; [congruence | exact IH].
Qed.

(** X18.  The text handed to [JSON.parse] never contains an apostrophe:
    every single quote of the payload, inside string values too, has been
    turned into a double quote. *)
Theorem normalization_leaves_no_apostrophe (payload : jsstring) :
  Forall (fun c => c <> 39%N) (jsonStr_fixed payload).
Proof.
  unfold jsonStr_fixed.
  do 3 (unfold replace_all at 1; apply replace_all_aux_Forall;
        [repeat constructor; discriminate|]).
  apply replace_apostrophes.
Qed.

(** X25.  Client decoder, payload rejected: when both sentinels occur and
    [JSON.parse] rejects the rewritten payload, [parseRAGResponse] returns
    its whole input trimmed, the block still inside, and no sources. *)
Theorem client_keeps_unparsable_block (s : jsstring) :
  indexOf s METADATA_START <> -1 ->
  indexOf s METADATA_END <> -1 ->
  parse (jsonStr_fixed (slice s (indexOf s METADATA_START + 15)
                                (indexOf s METADATA_END))) = None ->
  answer (parseRAGResponse s) = trim s /\
  sources (parseRAGResponse s) = JArr [] /\
  context (parseRAGResponse s) = JStr [].
Proof.
  intros Hi Hj Hp.
  destruct (parseRAGResponse_unparsable_block s Hi Hj Hp) as [E1 E2].
  repeat split; try assumption.
  unfold parseRAGResponse.
  destruct (indexOf s METADATA_START =? -1) eqn:Ei;
    [apply Z.eqb_eq in Ei; contradiction|].
  destruct (indexOf s METADATA_END =? -1) eqn:Ej;
    [apply Z.eqb_eq in Ej; contradiction|].
  cbn [negb andb]. unfold read_metadata. now rewrite Hp.
Qed.

(** X26.  Server decoder, end sentinel first: when the first end sentinel
    begins at or before the first start sentinel the block branch still
    runs, on an empty payload: no sources, and an answer glued from the
    text before the start sentinel and the text after that end sentinel. *)
Theorem server_decode_when_end_comes_first (s : jsstring) :
  indexOf s METADATA_START <> -1 ->
  indexOf s METADATA_END <> -1 ->
  indexOf s METADATA_END <= indexOf s METADATA_START ->
  slice s (indexOf s METADATA_START + 15) (indexOf s METADATA_END) = [] /\
  decode s
  = (trim (substring s 0 (indexOf s METADATA_START)
           ++ substring_from s (indexOf s METADATA_END + 13)),
     JArr []).
Proof.
  intros Hi Hj Hji. split; [|exact (decode_end_before_start s Hi Hj Hji)].
  apply slice_reversed.
  destruct (indexOf_range s METADATA_END) as [H | H]; [contradiction | lia].
Qed.

End DecoderFacts.

(* ================================================================= *)
(** * Properties of the client code *)

Section ClientFacts.

Import JS JSON Codec Chat Browser Signup Page.

Local Open Scope Z_scope.

Lemma eqb_eq (a b : jsstring) : JS.eqb a b = true <-> a = b.
Proof.
  revert b. induction a as [|x a IH]; intros [|y b]; simpl;
    try (split; [discriminate | discriminate]); [tauto|].
  rewrite andb_true_iff, N.eqb_eq, IH. split.
  - now intros [-> ->].
  - intros H; inversion H; now split.
Qed.

Lemma eqb_neq (a b : jsstring) : a <> b -> JS.eqb a b = false.
Proof.
  intros H. destruct (JS.eqb a b) eqn:E; [|reflexivity].
  now apply eqb_eq in E.
Qed.

(** X19.  After [clearAll] the session is gone whatever was stored:
    [getToken] returns [null], [getUser] returns [null] without throwing
    (even if the stored user text was not JSON), the chat history is
    removed, and every other key keeps its value. *)
Theorem clearAll_forgets_session (win : window) :
  getToken (clearAll win) = None /\
  getUser (clearAll win) = Some JNull /\
  forall ls, win = Some ls ->
    exists ls', clearAll win = Some ls' /\
      getItem ls' (lit "chat_history") = None /\
      forall k, k <> lit "token" -> k <> lit "user" ->
                k <> lit "chat_history" -> getItem ls' k = getItem ls k.
Proof.
  destruct win as [ls|]; cbn; repeat split; try discriminate.
  intros ls0 E. inversion E; subst ls0. eexists. split; [reflexivity|].
  split; [reflexivity|].
  intros k H1 H2 H3. unfold getItem, removeItem.
  now rewrite (eqb_neq H1), (eqb_neq H2), (eqb_neq H3).
Qed.

(** X20.  In the browser a stored token is read back as it was written,
    writing it does not touch any other key, and [clearToken] makes
    [getToken] return [null] again; without a [window] the three methods
    do nothing and [getToken] returns [null]. *)
Theorem token_round_trip (t : jsstring) (ls : storage) :
  getToken (setToken t (Some ls)) = Some t /\
  getToken (clearToken (setToken t (Some ls))) = None /\
  (exists ls', setToken t (Some ls) = Some ls' /\
               forall k, k <> lit "token" -> getItem ls' k = getItem ls k) /\
  setToken t None = None /\ clearToken None = None /\ getToken None = None.
Proof.
  repeat split.
  eexists. split; [reflexivity|]. intros k H.
  unfold getItem, setItem. now rewrite (eqb_neq H).
Qed.

Lemma is_empty_false (s : jsstring) : is_empty s = false <-> s <> [].
Proof. destruct s; simpl; split; congruence. Qed.

Lemma handle_is_not_invalid (res : response) (writes : list bool)
    (m : jsstring) :
  handle res writes <> Invalid m.
Proof.
  unfold handle.
  repeat match goal with
         | |- context [match ?e with _ => _ end] => destruct e
         end; discriminate.
Qed.

(** X21.  The sign-up form is sent exactly when the name and the role
    are not blank, the e-mail and the password are not empty and the two
    passwords are equal; otherwise [onSubmit] stops at a check, whatever
    the server would answer. *)
Theorem form_is_sent_iff (fetch : registration -> option response)
    (writes : list bool) (f : form) :
  (forall m, onSubmit fetch writes f <> Invalid m) <->
  (trim (fullName f) <> [] /\ email f <> [] /\ password f <> [] /\
   password2 f = password f /\ trim (persona f) <> []).
Proof.
  unfold onSubmit, validate.
  destruct (is_empty (trim (fullName f))) eqn:E1.
  { split; [intros H; now elim (H _ eq_refl)|].
    intros (H & _). destruct (trim (fullName f)); [now elim H | discriminate]. }
  destruct (is_empty (email f)) eqn:E2.
  { split; [intros H; now elim (H _ eq_refl)|].
    intros (_ & H & _). destruct (email f); [now elim H | discriminate]. }
  destruct (is_empty (password f)) eqn:E3.
  { split; [intros H; now elim (H _ eq_refl)|].
    intros (_ & _ & H & _). destruct (password f); [now elim H | discriminate]. }
  destruct (is_empty (password2 f)) eqn:E4.
  { split; [intros H; now elim (H _ eq_refl)|].
    intros (_ & _ & H & H' & _). rewrite H' in E4. congruence. }
  cbn [orb].
  destruct (JS.eqb (password f) (password2 f)) eqn:E5; cbn [negb].
  2:{ split; [intros H; now elim (H _ eq_refl)|].
      intros (_ & _ & _ & H & _). rewrite H, eqb_refl in E5. discriminate. }
  destruct (is_empty (trim (persona f))) eqn:E6.
  { split; [intros H; now elim (H _ eq_refl)|].
    intros (_ & _ & _ & _ & H).
    destruct (trim (persona f)); [now elim H | discriminate]. }
  apply is_empty_false in E1, E2, E3, E6. apply eqb_eq in E5.
  split; [intros _; repeat split; auto|].
  intros _ m. destruct (fetch (registration_of f)) as [res|];
    [apply handle_is_not_invalid | discriminate].
Qed.

Lemma session_stored_iff (writes : list bool) :
  session_stored writes = true <->
  nth 0 writes false = false /\ nth 1 writes false = false.
Proof.
  destruct writes as [|[|] [|[|] l]]; cbn; intuition congruence.
Qed.

(** X22.  An account is recorded exactly when the form passes its checks,
    the response arrives with a success status, its body is JSON, the
    parsed value has a truthy [ok], and neither of the two
    [localStorage.setItem] calls behind [cookieUtils.setToken] and
    [cookieUtils.setUser] throws; the token and the user passed to
    [cookieUtils] are the body's [token] and [user]. *)
Theorem registered_iff (fetch : registration -> option response)
    (writes : list bool) (f : form) (tok usr : option json) :
  onSubmit fetch writes f = Registered tok usr <->
  (validate f = None /\
   exists res data,
     fetch (registration_of f) = Some res /\
     res_ok res = true /\
     parse (res_text res) = Some data /\
     (exists ok, get data (lit "ok") = Some (Some ok) /\ truthy ok = true) /\
     get data (lit "token") = Some tok /\
     get data (lit "user") = Some usr /\
     nth 0 writes false = false /\ nth 1 writes false = false).
Proof.
  unfold onSubmit. split.
  - destruct (validate f); [discriminate|].
    destruct (fetch (registration_of f)) as [res|]; [|discriminate].
    unfold handle. intros H. split; [reflexivity|].
    destruct (res_ok res) eqn:Eok.
    2:{ destruct (get _ (lit "error")); discriminate. }
    destruct (parse (res_text res)) as [data|] eqn:Ep.
    2:{ cbn in H. discriminate. }
    exists res, data.
    split; [reflexivity|]. split; [exact Eok|]. split; [exact Ep|].
    destruct (get data (lit "ok")) as [[ok|]|] eqn:Eg; try discriminate;
      cbn [is_truthy] in H;
      [|destruct (get data (lit "error")); discriminate].
    destruct (truthy ok) eqn:Et;
      [|destruct (get data (lit "error")); discriminate].
    split; [now exists ok|].
    destruct (get data (lit "token")) as [t|]; [|discriminate].
    destruct (get data (lit "user")) as [u|]; [|discriminate].
    destruct (session_stored writes) eqn:Es; [|discriminate].
    inversion H; subst. apply session_stored_iff in Es. tauto.
  - intros (Hv & res & data & Hf & Hok & Hp & (ok & Hg & Ht) & Htok & Husr & Hw).
    apply session_stored_iff in Hw.
    rewrite Hv, Hf. unfold handle. rewrite Hok, Hp, Hg. cbn [is_truthy].
    now rewrite Ht, Htok, Husr, Hw.
Qed.

(** X23.  Once a response has arrived, the "Network error" status is
    shown in two cases only: its body is the JSON value [null], so that
    reading a property of it throws, or the registration succeeded and
    one of the two [localStorage.setItem] calls that store the session
    throws.  Both land in the handler's outer [catch]. *)
Theorem network_error_after_response (res : response) (writes : list bool) :
  handle res writes = NetworkError <->
  parse (res_text res) = Some JNull \/
  (res_ok res = true /\
   (exists data ok, parse (res_text res) = Some data /\
                    get data (lit "ok") = Some (Some ok) /\
                    truthy ok = true) /\
   (nth 0 writes false = true \/ nth 1 writes false = true)).
Proof.
  assert (W : session_stored writes = false <->
              nth 0 writes false = true \/ nth 1 writes false = true).
  { destruct writes as [|[|] [|[|] l]]; cbn; intuition congruence. }
  assert (R : forall data,
             match get data (lit "error") with
             | Some e => Refused (or_else e registration_failed)
             | None => NetworkError
             end = NetworkError -> data = JNull).
  { intros data. destruct data; cbn [get]; try discriminate. reflexivity. }
  unfold handle. split.
  - destruct (parse (res_text res)) as [data|] eqn:Ep.
    2:{ cbn [get lookup is_truthy or_else]. destruct (res_ok res); discriminate. }
    destruct (res_ok res) eqn:Eok.
    2:{ intros H. apply R in H. left. now rewrite H. }
    destruct (get data (lit "ok")) as [[ok|]|] eqn:Eg; cbn [is_truthy].
    + destruct (truthy ok) eqn:Et.
      * intros H. right. split; [reflexivity|].
        split; [now exists data, ok|]. apply W.
        destruct (get data (lit "token")) as [t|] eqn:E1;
          [|destruct data; discriminate].
        destruct (get data (lit "user")) as [u|] eqn:E2;
          [|destruct data; discriminate].
        destruct (session_stored writes); [discriminate H | reflexivity].
      * intros H. apply R in H. left. now rewrite H.
    + intros H. apply R in H. left. now rewrite H.
    + intros _. left. destruct data; cbn [get] in Eg; try discriminate.
      reflexivity.
  - intros [-> | (Hok & (data & ok & Hp & Hg & Ht) & Hw)].
    + cbn [get]. now destruct (res_ok res).
    + apply W in Hw. rewrite Hok, Hp, Hg. cbn [is_truthy]. rewrite Ht.
      destruct data; cbn [get] in *; try discriminate; now rewrite Hw.
Qed.

Variable env : environment.

(** X24.  A message the chat page sends is never turned down by the
    validation of [POST /chat]: the send guard and the handler apply the
    same blank test, so with a token that verifies for a user the reply
    is neither 400 nor 401. *)
Theorem page_message_passes_validation (token input conversationId : jsstring)
    (pageUser : option json) (cookie API_URL : option jsstring)
    (p : jwt_payload) (userId : Z) (w : world) :
  may_send input false API_URL = true ->
  token <> [] ->
  jwt_verify env token = Some p ->
  claim_user_id p = Some userId ->
  userId <> 0 ->
  exists r w',
    serve_post env (chat_request token input conversationId pageUser cookie) w
    = (Ok r, w') /\
    code r <> 400 /\ code r <> 401.
Proof.
  intros Hs Ht Hv Hu H0.
  set (req := chat_request token input conversationId pageUser cookie).
  assert (A : authenticated (onRequest env req) = Some userId).
  { unfold onRequest, Chat.token, req, chat_request.
    cbn [authorization cookie_token].
    rewrite startsWith_app, replace_first_prefix.
    destruct token as [|c t]; [now elim Ht|].
    rewrite Hv. cbn [authenticated]. rewrite Hu.
    destruct (Z.eqb_spec userId 0); [contradiction | reflexivity]. }
  assert (Q : trim input <> []).
  { unfold may_send in Hs. destruct (trim input); [discriminate Hs | discriminate]. }
  assert (B : question (body req) = Some (JStr input))
    by (destruct pageUser; reflexivity).
  assert (I : input <> []) by (intros ->; now elim Q).
  destruct (post_chat_paths env req w) as (o & w' & E & C).
  destruct C as [(C & _) | (u & _ & C)]; [congruence|].
  destruct C as [(_ & _ & C) | [(_ & _ & _ & C) | (q & Hq & _ & C)]].
  - exfalso. destruct C as [C | (x & Hx & _ & Sx)].
    + rewrite (destructure_question _ B) in C. discriminate C.
    + rewrite B in Hx. inversion Hx. now elim (Sx input).
  - exfalso. destruct C as [C | (q & Hq & Hb)].
    + rewrite B in C. cbn in C. destruct input; [now elim I | discriminate C].
    + rewrite B in Hq. inversion Hq; subst q. now elim Q.
  - cbv zeta in C.
    destruct C as [(_ & -> & _) | (_ & [(_ & -> & _) | (aiUrl & _ & _ & C)])];
      try (eexists _, _; split; [exact E|]; cbn [code]; split; discriminate).
    destruct C as [(_ & -> & _) | (T & _ & _ & -> & _)];
      eexists _, _; (split; [exact E|]); cbn [code]; split; discriminate.
Qed.

End ClientFacts.

(* ================================================================= *)
(** * Concrete runs of the further properties *)

Section MoreRuns.

Import JS JSON Codec Ledger Chat Browser Signup Page Sessions Examples
  MoreExamples.

Local Open Scope Z_scope.

Lemma history_lists_default_rows_witness :
  let env := env_with (Some hello_world) in
  let w := after_two_exchanges in
  let msgs := [ {| messageId := 1; role := user; text := lit "Why?";
                   index := 1 |};
                {| messageId := 2; role := assistant;
                   text := lit "hello  world"; index := 2 |} ] in
  serve_get env why_request w
  = (Ok (Reply 200 (History default_session 7 msgs)), w) /\
  Permutation msgs
    (map format_message
         (filter (in_scope (sqlite_affinity env) 7 default_session)
                 (rows (db w)))) /\
  StronglySorted (fun a b => index a <= index b) msgs.
Proof.
  intros env w msgs.
  assert (E : serve_get env why_request w
              = (Ok (Reply 200 (History default_session 7 msgs)), w))
    by (vm_compute; reflexivity).
  split; [exact E|].
  destruct (@history_lists_default_rows env why_request w w
              default_session 7 msgs E) as (_ & _ & P & S).
  split; assumption.
Defined.

(** A question asked under ["07"] after an exchange under ["7"]: both ids
    are kept as the integer 7, so the context holds the three rows. *)
Lemma context_window_recent_witness :
  let env := env_with (Some hello_world) in
  let c := JStr (lit "07") in
  let t := with_turn (db after_exchange_under_7) c 7 (lit "And?") User in
  let win := context_window (sqlite_affinity env) t 7 c in
  map (fun m => (conversation_id m, content m)) win
  = [(JStr (lit "7"), lit "Why?"); (JStr (lit "7"), lit "hello  world");
     (JStr (lit "07"), lit "And?")] /\
  messageContext
    (inference_request env 7 (lit "And?") c (lit "http://rag:8000/chat") t)
  = [(user, lit "Why?"); (assistant, lit "hello  world");
     (user, lit "And?")] /\
  List.length win
  = Nat.min 8 (List.length
                 (filter (in_scope (sqlite_affinity env) 7 c) (rows t))) /\
  StronglySorted (fun a b => message_index a <= message_index b) win.
Proof.
  intros env c t win.
  split; [vm_compute; reflexivity|].
  destruct (@context_window_recent env t 7 c (lit "And?")
              (lit "http://rag:8000/chat")) as (M & L & S & _).
  split; [rewrite M; vm_compute; reflexivity|]. split; assumption.
Defined.

Lemma post_chat_blank_question_witness :
  let env := env_with (Some hello_world) in
  let req := header_request good_token (ask (lit "   ") (Some (lit "c2"))) in
  authenticated (onRequest env req) = Some 7 /\
  destructure (body req) <> None /\
  serve_post env req fresh
  = (Ok (Reply 400 (Message (lit "Question is required."))), fresh).
Proof.
  intros env req.
  assert (Ha : authenticated (onRequest env req) = Some 7)
    by (vm_compute; reflexivity).
  assert (Hd : destructure (body req) <> None) by (vm_compute; discriminate).
  split; [exact Ha|]. split; [exact Hd|].
  apply (@post_chat_blank_question env req fresh 7 Ha Hd).
  right. exists (lit "   "). split; [reflexivity|].
  repeat constructor.
Defined.

Lemma context_ends_with_question_witness :
  let env := env_with (Some hello_world) in
  let url := lit "http://rag:8000/chat" in
  exists older,
    context_window (sqlite_affinity env)
                   (with_turn one_turn default_session 7 (lit "Why?") User)
                   7 default_session
    = older ++ [turn_row one_turn default_session 7 (lit "Why?") User] /\
    messageContext
      (inference_request env 7 (lit "Why?") default_session url
         (with_turn one_turn default_session 7 (lit "Why?") User))
    = map (fun msg => (role_of (speaker msg), content msg)) older
      ++ [(user, lit "Why?")].
Proof.
  intros env url.
  apply (@context_ends_with_question env one_turn 7 default_session
           (lit "Why?") url).
  intros u. unfold one_turn, with_turn, insert, empty.
  cbn [rows app filter]. unfold of_user. cbn [user_id].
  destruct (7 =? u); reflexivity.
Defined.

Lemma user_turn_write_failure_witness :
  let env := env_with (Some hello_world) in
  ~ healthy 2 failing_insert /\
  exists w',
    serve_post env why_request failing_insert
    = (Ok (Reply 500 (Failure (lit "Failed to store message"))), w') /\
    db w' = db failing_insert.
Proof.
  intros env.
  assert (H : ~ healthy 2 failing_insert) by (unfold healthy; cbn; discriminate).
  split; [exact H|].
  apply (@user_turn_write_failure env why_request failing_insert 7 (lit "Why?"));
    [vm_compute; reflexivity | reflexivity | vm_compute; discriminate | exact H].
Defined.

Lemma unconfigured_service_keeps_user_turn_witness :
  healthy 2 fresh /\
  exists w',
    serve_post env_unconfigured why_request fresh
    = (Ok (Reply 500 (Message (lit "AI service not configured."))), w') /\
    rows (db w')
    = rows (db fresh)
      ++ [turn_row (db fresh) default_session 7 (lit "Why?") User].
Proof.
  split; [reflexivity|].
  apply (@unconfigured_service_keeps_user_turn env_unconfigured why_request
           fresh 7 (lit "Why?"));
    [vm_compute; reflexivity | reflexivity | vm_compute; discriminate
    | reflexivity | now left].
Defined.

Lemma ai_turn_write_failure_is_swallowed_witness :
  let env := env_with (Some hello_world) in
  healthy 3 failing_ai_write /\ ~ healthy 5 failing_ai_write /\
  exists w',
    serve_post env why_request failing_ai_write
    = (Ok (Reply 200 (Answer (fst (decode hello_world))
                             (snd (decode hello_world))
                             (fst (decode hello_world)) default_session)), w') /\
    db w' = with_turn (db failing_ai_write) default_session 7 (lit "Why?") User.
Proof.
  intros env.
  assert (H5 : ~ healthy 5 failing_ai_write)
    by (unfold healthy; cbn; discriminate).
  split; [reflexivity|]. split; [exact H5|].
  refine (@ai_turn_write_failure_is_swallowed env why_request failing_ai_write
            7 (lit "Why?") (lit "http://rag:8000/chat") hello_world
            _ _ _ _ _ _ H5 _).
  - vm_compute; reflexivity.
  - reflexivity.
  - vm_compute; discriminate.
  - reflexivity.
  - vm_compute; discriminate.
  - reflexivity.
  - reflexivity.
Defined.

Lemma successful_exchange_witness :
  let env := env_with (Some hello_world) in
  let t1 := with_turn (db fresh) default_session 7 (lit "Why?") User in
  let asked := turn_row (db fresh) default_session 7 (lit "Why?") User in
  let answered :=
    turn_row t1 default_session 7 (fst (decode hello_world)) AI in
  healthy 5 fresh /\
  exists w',
    serve_post env why_request fresh
    = (Ok (Reply 200 (Answer (fst (decode hello_world))
                             (snd (decode hello_world))
                             (fst (decode hello_world)) default_session)), w') /\
    rows (db w') = rows (db fresh) ++ [asked; answered] /\
    message_index answered = message_index asked + 1.
Proof.
  intros env t1 asked answered.
  split; [reflexivity|].
  refine (@successful_exchange env why_request fresh 7 (lit "Why?")
            (lit "http://rag:8000/chat") hello_world _ _ _ _ _ _ _).
  - vm_compute; reflexivity.
  - reflexivity.
  - vm_compute; discriminate.
  - reflexivity.
  - vm_compute; discriminate.
  - reflexivity.
  - reflexivity.
Defined.

Lemma server_decode_of_block_witness :
  indexOf hello_world METADATA_START + 15 <= indexOf hello_world METADATA_END /\
  exists pre payload post,
    hello_world = pre ++ METADATA_START ++ payload ++ METADATA_END ++ post /\
    fst (decode hello_world) = trim (pre ++ post) /\
    snd (decode hello_world) = match read_sources payload with
                               | Some v => v
                               | None => JArr []
                               end /\
    (parse (jsonStr_fixed payload) = None -> snd (decode hello_world) = JArr []).
Proof.
  split; [vm_compute; discriminate|].
  apply (@server_decode_of_block hello_world);
    vm_compute; discriminate.
Defined.

Lemma decoders_agree_on_parsed_payload_witness :
  read_sources (slice hello_world (indexOf hello_world METADATA_START + 15)
                      (indexOf hello_world METADATA_END))
  = Some (JArr [JStr (lit "a.pdf (p.1)")]) /\
  formatRAGResponse (parseRAGResponse hello_world) = decode hello_world /\
  snd (decode hello_world) = JArr [JStr (lit "a.pdf (p.1)")].
Proof.
  assert (H : read_sources
                (slice hello_world (indexOf hello_world METADATA_START + 15)
                       (indexOf hello_world METADATA_END))
              = Some (JArr [JStr (lit "a.pdf (p.1)")]))
    by (vm_compute; reflexivity).
  split; [exact H|].
  apply (@decoders_agree_on_parsed_payload hello_world _);
    [vm_compute; discriminate | vm_compute; discriminate | exact H].
Defined.

Lemma client_on_plain_text_witness :
  indexOf padded METADATA_START = -1 /\
  answer (parseRAGResponse padded) = trim padded /\
  sources (parseRAGResponse padded) = JArr [] /\
  context (parseRAGResponse padded) = JStr [] /\
  answer (parseRAGResponse (fst (decode padded))) = trim padded.
Proof.
  assert (H : indexOf padded METADATA_START = -1) by (vm_compute; reflexivity).
  split; [exact H|].
  apply (@client_on_plain_text padded). now left.
Defined.

Lemma client_keeps_unparsable_block_witness :
  parse (jsonStr_fixed
           (slice broken_block_reply
                  (indexOf broken_block_reply METADATA_START + 15)
                  (indexOf broken_block_reply METADATA_END))) = None /\
  answer (parseRAGResponse broken_block_reply) = trim broken_block_reply /\
  sources (parseRAGResponse broken_block_reply) = JArr [] /\
  context (parseRAGResponse broken_block_reply) = JStr [].
Proof.
  assert (H : parse (jsonStr_fixed
                       (slice broken_block_reply
                              (indexOf broken_block_reply METADATA_START + 15)
                              (indexOf broken_block_reply METADATA_END))) = None)
    by (vm_compute; reflexivity).
  split; [exact H|].
  apply (@client_keeps_unparsable_block broken_block_reply);
    [vm_compute; discriminate | vm_compute; discriminate | exact H].
Defined.

Lemma server_decode_when_end_comes_first_witness :
  indexOf end_before_start METADATA_END
  <= indexOf end_before_start METADATA_START /\
  slice end_before_start (indexOf end_before_start METADATA_START + 15)
        (indexOf end_before_start METADATA_END) = [] /\
  decode end_before_start
  = (trim (substring end_before_start 0
                     (indexOf end_before_start METADATA_START)
           ++ substring_from end_before_start
                (indexOf end_before_start METADATA_END + 13)),
     JArr []).
Proof.
  assert (H : indexOf end_before_start METADATA_END
              <= indexOf end_before_start METADATA_START)
    by (vm_compute; discriminate).
  split; [exact H|].
  apply (@server_decode_when_end_comes_first end_before_start);
    [vm_compute; discriminate | vm_compute; discriminate | exact H].
Defined.

Lemma page_message_passes_validation_witness :
  let env := env_with (Some hello_world) in
  may_send (lit "Why?") false (Some (lit "http://localhost:3000")) = true /\
  exists r w',
    serve_post env
      (chat_request good_token (lit "Why?") (lit "default-session")
                    (Some JNull) None) fresh
    = (Ok r, w') /\
    code r <> 400 /\ code r <> 401.
Proof.
  intros env.
  assert (H : may_send (lit "Why?") false (Some (lit "http://localhost:3000"))
              = true) by (vm_compute; reflexivity).
  split; [exact H|].
  apply (@page_message_passes_validation env good_token (lit "Why?")
           (lit "default-session") (Some JNull) None
           (Some (lit "http://localhost:3000")) alice 7 fresh H);
    [vm_compute; discriminate | vm_compute; reflexivity | reflexivity
    | discriminate].
Defined.

End MoreRuns.
